(** * Longwave-Radiation-Model-Hawaii: the formula library, the model
      dispatcher, the error metrics and the two dataset pipelines

    A shallow embedding of [Cleaned Station Data/models.py] and
    [Cleaned Station Data/HIdata_error.py].

    Numbers.  The programs compute on float64 data held in pandas Series.
    A float64 is modelled by [f64]: a real number, one of the two
    infinities, or NaN.  Finite arithmetic is exact real arithmetic:
    rounding, overflow, underflow and the sign of zero are not modelled
    (a zero divisor counts as +0).  What numpy does at the points where a
    finite operation has no finite value is modelled as numpy does it:
    a division by zero gives an infinity or NaN and raises nothing, a
    fractional power of a negative base and the square root of a negative
    number give NaN, comparisons with NaN are false, and the mean of a
    Series skips NaN. *)

From Stdlib Require Import Reals Lra Lia.
From stdpp Require Import base option list gmap strings.

Open Scope R_scope.

#[global] Instance Rlt_decision : RelDecision Rlt := Rlt_dec.
#[global] Instance Rle_decision : RelDecision Rle := Rle_dec.
#[global] Instance Req_decision : EqDecision R := Req_dec_T.

(** ** numpy's float64 arithmetic, elementwise *)

Module np.

Inductive f64 : Type :=
| Fin (r : R)
| PInf
| NInf
| NaN.

Definition isnan (x : f64) : bool :=
  match x with NaN => true | _ => false end.

(** The infinity of the sign of [a], NaN when [a] is zero. *)
Definition inf_of_sign (a : R) : f64 :=
  if decide (0 < a) then PInf else if decide (a < 0) then NInf else NaN.

Definition neg (x : f64) : f64 :=
  match x with
  | Fin a => Fin (- a)
  | PInf => NInf
  | NInf => PInf
  | NaN => NaN
  end.

Definition add (x y : f64) : f64 :=
  match x, y with
  | NaN, _ | _, NaN => NaN
  | Fin a, Fin b => Fin (a + b)
  | PInf, NInf | NInf, PInf => NaN
  | PInf, _ | _, PInf => PInf
  | NInf, _ | _, NInf => NInf
  end.

Definition sub (x y : f64) : f64 := add x (neg y).

Definition mul (x y : f64) : f64 :=
  match x, y with
  | NaN, _ | _, NaN => NaN
  | Fin a, Fin b => Fin (a * b)
  | Fin a, PInf | PInf, Fin a => inf_of_sign a
  | Fin a, NInf | NInf, Fin a => inf_of_sign (- a)
  | PInf, PInf | NInf, NInf => PInf
  | PInf, NInf | NInf, PInf => NInf
  end.

(** [x / y]: a zero divisor gives an infinity (NaN for 0/0), no error. *)
Definition div (x y : f64) : f64 :=
  match x, y with
  | NaN, _ | _, NaN => NaN
  | Fin a, Fin b => if decide (b = 0) then inf_of_sign a else Fin (a / b)
  | Fin _, (PInf | NInf) => Fin 0
  | PInf, Fin b => if decide (b < 0) then NInf else PInf
  | NInf, Fin b => if decide (b < 0) then PInf else NInf
  | (PInf | NInf), (PInf | NInf) => NaN
  end.

(** [x ** n] for an integer literal [n]. *)
Fixpoint pow_int (x : f64) (n : nat) : f64 :=
  match n with
  | O => Fin 1
  | S O => x
  | S m => mul x (pow_int x m)
  end.

(** [x ** y] for a float literal [y] that is not a whole number, as all
    the float exponents of the two programs are. *)
Definition power (x : f64) (y : R) : f64 :=
  match x with
  | Fin a =>
      if decide (0 < a) then Fin (Rpower a y)
      else if decide (a = 0) then (if decide (0 < y) then Fin 0 else PInf)
      else NaN
  | PInf | NInf => if decide (0 < y) then PInf else Fin 0
  | NaN => NaN
  end.

Definition exp (x : f64) : f64 :=
  match x with
  | Fin a => Fin (Rtrigo_def.exp a)
  | PInf => PInf
  | NInf => Fin 0
  | NaN => NaN
  end.

Definition sqrt (x : f64) : f64 :=
  match x with
  | Fin a => if decide (a < 0) then NaN else Fin (R_sqrt.sqrt a)
  | PInf => PInf
  | NInf | NaN => NaN
  end.

Definition lt (x y : f64) : bool :=
  match x, y with
  | NaN, _ | _, NaN => false
  | Fin a, Fin b => bool_decide (a < b)
  | NInf, (Fin _ | PInf) | Fin _, PInf => true
  | _, _ => false
  end.

Definition le (x y : f64) : bool :=
  match x, y with
  | NaN, _ | _, NaN => false
  | Fin a, Fin b => bool_decide (a <= b)
  | NInf, _ | _, PInf => true
  | _, _ => false
  end.

Definition gt (x y : f64) : bool := lt y x.
Definition ge (x y : f64) : bool := le y x.

(** [np.clip(x, lo, hi)] with finite bounds: NaN stays NaN. *)
Definition clip (x : f64) (lo hi : R) : f64 :=
  match x with
  | Fin a => Fin (Rmin (Rmax a lo) hi)
  | PInf => Fin hi
  | NInf => Fin lo
  | NaN => NaN
  end.

Definition sum (xs : list f64) : f64 := foldr add (Fin 0) xs.

(** [np.mean] of a pandas Series is the Series' own [mean], which skips
    NaN; the mean of no value at all is NaN. *)
Definition mean (xs : list f64) : f64 :=
  let kept := filter (λ x, isnan x = false) xs in
  match kept with
  | [] => NaN
  | _ => div (sum kept) (Fin (INR (length kept)))
  end.

End np.

Export np (f64, Fin, PInf, NInf, NaN).

Declare Scope f64_scope.
Delimit Scope f64_scope with f64.
Bind Scope f64_scope with f64.
Notation "x + y" := (np.add x y) : f64_scope.
Notation "x - y" := (np.sub x y) : f64_scope.
Notation "x * y" := (np.mul x y) : f64_scope.
Notation "x / y" := (np.div x y) : f64_scope.
Notation "x ^ n" := (np.pow_int x n) : f64_scope.
Notation "x ** y" := (np.power x y) (at level 30, right associativity) : f64_scope.
Notation "# r" := (Fin r) (at level 5, format "# r") : f64_scope.

(** Python exceptions the two programs raise or catch. *)
Inductive exn : Type :=
| KeyError (arg : string)
| ValueError (msg : string).

(** The formulas are written on one element.  The same Python function
    is called on floats and on whole columns; on columns numpy applies it
    elementwise.  The columns of one table share their index, so the
    elements are paired by position. *)
Class Elementwise (A : Type) : Type := {
  map1 : (f64 → f64) → A → A;
  map2 : (f64 → f64 → f64) → A → A → A;
  map3 : (f64 → f64 → f64 → f64) → A → A → A → A
}.

#[global] Instance scalar_elementwise : Elementwise f64 := {
  map1 f := f;
  map2 f := f;
  map3 f := f
}.

#[global] Instance column_elementwise : Elementwise (list f64) := {
  map1 f xs := f <$> xs;
  map2 f xs ys := zip_with f xs ys;
  map3 f xs ys zs := zip_with (λ x yz, f x yz.1 yz.2) xs (zip ys zs)
}.

(** A small error monad for the code that raises: [inl e] is the
    exception [e] on its way to the caller. *)
Definition raise {A : Type} (e : exn) : exn + A := inl e.

#[global] Instance exn_ret : MRet (sum exn) := λ A a, inr a.
#[global] Instance exn_bind : MBind (sum exn) := λ A B k m,
  match m with
  | inl e => inl e
  | inr a => k a
  end.

(** ** models.py *)

Module models.

Local Open Scope f64_scope.

Definition sigma : R := 5.67e-8.

Definition brutsaert_clear_sky (Ta ea : f64) : f64 :=
  let epsilon_0 := #1.24 * (ea / Ta) ** (1 / 7) in
  epsilon_0 * #sigma * Ta ^ 4.

(** [clr_pct] is [None] when the caller passes Python's [None]. *)
Definition calculate_cloud_fraction `{Elementwise A} (ghi_m ghi_c : A)
    (clr_pct : option A) : A :=
  match clr_pct with
  | Some clr_pct => map1 (λ clr_pct, #1 - clr_pct) clr_pct
  | None =>
      let cloud_fraction := map2 (λ ghi_m ghi_c, #1 - (ghi_m / ghi_c)) ghi_m ghi_c in
      map1 (λ x, np.clip x 0 1) cloud_fraction
  end.

Definition maykut_church (LW_clear c : f64) : f64 :=
  LW_clear * (#1 + #0.22 * c ** 2.75).

Definition jacobs (LW_clear c : f64) : f64 :=
  LW_clear * (#1 + #0.26 * c).

Definition suguita_brutsaert (LW_clear c : f64) : f64 :=
  LW_clear * (#1 + #0.0496 * c ** 2.45).

Definition konzelmann (LW_clear c Ta : f64) : f64 :=
  LW_clear * (#1 - c ^ 4) + #0.952 * c ^ 4 * #sigma * Ta ^ 4.

Definition crawford_duchon (LW_clear c Ta : f64) : f64 :=
  LW_clear * (#1 - c) + c * #sigma * Ta ^ 4.

Definition lhomme (LW_clear c : f64) : f64 :=
  LW_clear * (#1.03 + #0.34 * c).

Definition invalid_model : exn :=
  ValueError "Invalid model name. Choose from predefined models.".

(** The keyword argument [model]: [None] when the call leaves it out. *)
Definition compute_cloudy_LW `{Elementwise A} (Ta ea c : A)
    (model : option string) : exn + A :=
  let model := default "crawford_duchon"%string model in
  let LW_clear := map2 brutsaert_clear_sky Ta ea in
  if decide (model = "maykut_church"%string) then
    inr (map2 maykut_church LW_clear c)
  else if decide (model = "jacobs"%string) then
    inr (map2 jacobs LW_clear c)
  else if decide (model = "suguita_brutsaert"%string) then
    inr (map2 suguita_brutsaert LW_clear c)
  else if decide (model = "konzelmann"%string) then
    inr (map3 konzelmann LW_clear c Ta)
  else if decide (model = "crawford_duchon"%string) then
    inr (map3 crawford_duchon LW_clear c Ta)
  else if decide (model = "lhomme"%string) then
    inr (map2 lhomme LW_clear c)
  else raise invalid_model.

Definition compute_emissivity (LW_measured Ta : f64) : f64 :=
  LW_measured / (#sigma * Ta ^ 4).

(** *** Tables

    A table has a number of rows and named float columns, each with one
    value per row.  The tables of the HDF5 file hold floats only; the
    one column of strings is the station tag that [read_surfrad_h5]
    adds, kept in [Station] (empty until it is set): once it is set, the
    column named Station of the table is this field. *)
Record DataFrame : Type := {
  nrows : nat;
  columns : gmap string (list f64);
  Station : list string
}.

(** [df[name]]: a missing column raises [KeyError(name)]. *)
Definition getitem (df : DataFrame) (name : string) : exn + list f64 :=
  match columns df !! name with
  | Some xs => inr xs
  | None => raise (KeyError name)
  end.

(** [df.get(name, None)] *)
Definition get (df : DataFrame) (name : string) : option (list f64) :=
  columns df !! name.

(** [df[name] = xs] *)
Definition setitem (df : DataFrame) (name : string) (xs : list f64) : DataFrame :=
  {| nrows := nrows df; columns := <[name := xs]> (columns df); Station := Station df |}.

(** [df['Station'] = station]: the string on every row.  The column of
    strings takes the place of a float column of that name, if the table
    had one. *)
Definition set_Station (df : DataFrame) (station : string) : DataFrame :=
  {| nrows := nrows df;
     columns := delete "Station"%string (columns df);
     Station := replicate (nrows df) station |}.

(** The content of the HDF5 file: the tables under their keys. *)
Abbreviation HDFStore := (gmap string DataFrame).

(** [pd.read_hdf(file_path, key=station)] *)
Definition read_hdf (file : HDFStore) (key : string) : exn + DataFrame :=
  match file !! key with
  | Some df => inr df
  | None => raise (KeyError ("No object named " +:+ key +:+ " in the file"))
  end.

(** Two tables one under the other: a column that one of them lacks is
    NaN on its rows. *)
Definition concat2 (a b : DataFrame) : DataFrame :=
  {| nrows := nrows a + nrows b;
     columns :=
       merge (λ x y,
                match x, y with
                | None, None => None
                | _, _ => Some (default (replicate (nrows a) NaN) x
                                ++ default (replicate (nrows b) NaN) y)
                end)
             (columns a) (columns b);
     Station := Station a ++ Station b |}.

(** [pd.concat(objs, ignore_index=True)]: no table at all is an error. *)
Definition concat (objs : list DataFrame) : exn + DataFrame :=
  match objs with
  | [] => raise (ValueError "No objects to concatenate")
  | df :: rest => inr (foldl concat2 df rest)
  end.

(** The body of the [try] of [read_surfrad_h5]. *)
Definition load_station (file : HDFStore) (station : string) : exn + DataFrame :=
  df ← read_hdf file station;
  ghi_m ← getitem df "ghi_m";
  ghi_c ← getitem df "ghi_c";
  let df := setitem df "Cloud_Fraction"
              (calculate_cloud_fraction ghi_m ghi_c (get df "clr_pct")) in
  dlw_m ← getitem df "dlw_m";
  t_m ← getitem df "t_m";
  let df := setitem df "Emissivity_measured" (map2 compute_emissivity dlw_m t_m) in
  t_m ← getitem df "t_m";
  let df := setitem df "Ta" t_m in
  pw_hpa ← getitem df "pw_hpa";
  let df := setitem df "ea" pw_hpa in
  let df := set_Station df station in
  mret df.

(** [str(e)] of a [KeyError] is its argument between quotes. *)
Definition warning (arg station : string) : string :=
  "Warning: '" +:+ arg +:+ "'. Skipping station " +:+ station +:+ ".".

(** The loop of [read_surfrad_h5]: the tables appended so far and the
    lines printed so far. *)
Fixpoint read_stations (file : HDFStore) (stations : list string)
    (combined_data : list DataFrame) (printed : list string)
    : exn + (list DataFrame * list string) :=
  match stations with
  | [] => inr (combined_data, printed)
  | station :: stations =>
      match load_station file station with
      | inr df => read_stations file stations (combined_data ++ [df]) printed
      | inl (KeyError arg) =>
          read_stations file stations combined_data
            (printed ++ [warning arg station])
      | inl e => inl e
      end
  end.

(** The result, or the exception that leaves the function, and the
    lines printed in either case. *)
Definition read_surfrad_h5 (file : HDFStore) (stations : list string)
    : exn + (DataFrame * list string) :=
  '(combined_data, printed) ← read_stations file stations [] [];
  df ← concat combined_data;
  mret (df, printed).

Record Report : Type := {
  MBE : f64;
  RMSE : f64;
  rMBE : f64;
  rRMSE : f64
}.

(** One turn of the loop of [validate_emissivity]. *)
Definition validate_model (data : DataFrame) (model : string) : exn + Report :=
  Ta ← getitem data "Ta";
  ea ← getitem data "ea";
  Cloud_Fraction ← getitem data "Cloud_Fraction";
  predicted_LW ← compute_cloudy_LW Ta ea Cloud_Fraction (Some model);
  Ta ← getitem data "Ta";
  let predicted_emissivity :=
    map2 (λ predicted_LW Ta, predicted_LW / (#5.67e-8 * Ta ^ 4)) predicted_LW Ta in
  measured_emissivity ← getitem data "Emissivity_measured";
  let error := map2 np.sub predicted_emissivity measured_emissivity in
  let mbe := np.mean error in
  let rmse := np.sqrt (np.mean (map1 (λ e, e ^ 2) error)) in
  let rMBE := (mbe / np.mean measured_emissivity) * #100 in
  let rRMSE := (rmse / np.mean measured_emissivity) * #100 in
  mret {| MBE := mbe; RMSE := rmse; rMBE := rMBE; rRMSE := rRMSE |}.

Fixpoint validate_loop (data : DataFrame) (models : list string)
    (results : gmap string Report) : exn + gmap string Report :=
  match models with
  | [] => inr results
  | model :: models =>
      report ← validate_model data model;
      validate_loop data models (<[model := report]> results)
  end.

Definition validate_emissivity (data : DataFrame) (models : list string)
    : exn + gmap string Report :=
  validate_loop data models ∅.

(** The six names of the docstring of [compute_cloudy_LW]. *)
Definition model_names : list string :=
  ["maykut_church"; "jacobs"; "suguita_brutsaert";
   "konzelmann"; "crawford_duchon"; "lhomme"]%string.

End models.

(** ** HIdata_error.py *)

Module HIdata_error.

Local Open Scope f64_scope.

Definition a1 : R := 0.42036059446739293.
Definition a2 : R := 0.8335622813711547.
Definition m1 : R := 0.24940266639537556.
Definition m2 : R := -0.13137915252218796.
Definition n1 : R := -0.31787964985255074.
Definition sigma : R := 5.67e-8.
Definition H : R := 8500.

Definition calculate_cf (dhi_m ghi_m dni_m dni_c : f64) : f64 :=
  let k_d := dhi_m / ghi_m in
  let k_t := dni_m / dni_c in
  let cf := #a1 * k_d ** a2 + #m1 * k_t ** m2 + #n1 in
  cf.

Definition predict_epsilon_sky (cf epsilon_clear_sky epsilon_clouds : f64) : f64 :=
  let epsilon_sky := (#1 - cf) * epsilon_clear_sky + cf * epsilon_clouds in
  epsilon_sky.

Definition calculate_actual_epsilon (temp dlw : f64) : f64 :=
  let t_kelvin := temp + #273.15 in
  let epsilon := dlw / (#sigma * t_kelvin ^ 4) in
  epsilon.

Definition calculate_clear_sky_emissivity (temp rh altitude : f64) : f64 :=
  let e_s := #6.112 * np.exp (#17.625 * temp / (temp - #30.11 + #273.15)) in
  let pw_hpa := e_s * rh / #100 in
  let sqrt_pw := np.sqrt (pw_hpa / #1013.25) in
  let e_clear_sky :=
    #0.6 + #1.652 * sqrt_pw + #0.15 * (np.exp (np.neg altitude / #H) - #1) in
  e_clear_sky.

(** The two arguments are columns of one table: their values are paired
    by position. *)
Definition calculate_errors (actual predicted : list f64) : f64 * f64 * f64 * f64 :=
  let errors := zip_with np.sub predicted actual in
  let mbe := np.mean errors in
  let rmse := np.sqrt (np.mean ((λ e, e ^ 2) <$> errors)) in
  let rMBE := mbe / np.mean actual * #100 in
  let rRMSE := rmse / np.mean actual * #100 in
  (mbe, rmse, rMBE, rRMSE).

(** *** The script below the functions *)

(** One row of the sheet, with the columns the script reads. *)
Record Row : Type := {
  DHI : f64;
  GHI : f64;
  DNI : f64;
  Clearsky_DNI : f64;
  temp : f64;
  dlw : f64;
  rh : f64;
  site_elev : f64;
  Solar_Zenith_Angle : f64
}.

(** A table is its rows with their index labels; a Series is a column
    with the labels of the table it was read from. *)
Abbreviation DataFrame := (list (nat * Row)).
Abbreviation Series := (list (nat * f64)).

(** [pd.read_excel]: the rows of the sheet under the labels 0, 1, 2, ... *)
Definition read_excel (sheet : list Row) : DataFrame :=
  zip (seq 0 (length sheet)) sheet.

(** [data[name]] *)
Definition getitem (name : Row → f64) (data : DataFrame) : Series :=
  (λ p, (p.1, name p.2)) <$> data.

(** The first entry under a label. *)
Fixpoint loc {X : Type} (s : list (nat * X)) (l : nat) : option X :=
  match s with
  | [] => None
  | (l', x) :: s' => if decide (l' = l) then Some x else loc s' l
  end.

(** The value of a Series at a label, NaN where the label is missing. *)
Definition at_label (s : Series) (l : nat) : f64 := default NaN (loc s l).

Definition index (s : Series) : list nat := fst <$> s.

(** Elementwise application to Series, which pandas aligns on the
    labels: the result has the labels of the first Series. *)
Definition apply2 (f : f64 → f64 → f64) (s t : Series) : Series :=
  (λ p, (p.1, f p.2 (at_label t p.1))) <$> s.

Definition apply3 (f : f64 → f64 → f64 → f64) (s t u : Series) : Series :=
  (λ p, (p.1, f p.2 (at_label t p.1) (at_label u p.1))) <$> s.

Definition apply4 (f : f64 → f64 → f64 → f64 → f64) (s t u v : Series) : Series :=
  (λ p, (p.1, f p.2 (at_label t p.1) (at_label u p.1) (at_label v p.1))) <$> s.

(** A Series on the labels of a table: the values of [s] at these
    labels, NaN where [s] has none. *)
Definition reindex (rows : DataFrame) (s : Series) : Series :=
  (λ p, (p.1, at_label s p.1)) <$> rows.

Definition nan_row : Row :=
  {| DHI := NaN; GHI := NaN; DNI := NaN; Clearsky_DNI := NaN; temp := NaN;
     dlw := NaN; rh := NaN; site_elev := NaN; Solar_Zenith_Angle := NaN |}.

(** The table that the script assigns columns to: the rows with the
    columns of the sheet, and the columns added by name. *)
Record Frame : Type := {
  rows : DataFrame;
  added : gmap string Series
}.

(** What [data[name] = s] first does to a table that has no row, when [s]
    has values: the table takes over the labels of [s], with NaN in all
    the columns it has.  A table that has rows is left as it is. *)
Definition ensure_valid_index (data : Frame) (s : Series) : Frame :=
  match rows data, s with
  | [], _ :: _ =>
      {| rows := (λ p, (p.1, nan_row)) <$> s;
         added := (λ _ : Series, (λ p, (p.1, NaN)) <$> s) <$> added data |}
  | _, _ => data
  end.

(** [data[name] = s]: the new column has the labels of the table and
    takes from [s] the values at these labels. *)
Definition setitem (data : Frame) (name : string) (s : Series) : Frame :=
  let data := ensure_valid_index data s in
  {| rows := rows data; added := <[name := reindex (rows data) s]> (added data) |}.

(** [data[name]] for a column that the script has added. *)
Definition column (data : Frame) (name : string) : Series :=
  default [] (added data !! name).

Definition condition_0 (r : Row) : bool :=
  np.lt (Solar_Zenith_Angle r) #72.5.
Definition condition_1 (r : Row) : bool :=
  np.gt (GHI r) #0 && np.gt (DHI r) #0.
Definition condition_2 (r : Row) : bool :=
  np.gt (DNI r / Clearsky_DNI r) #0 && np.le (DNI r / Clearsky_DNI r) #1.5.
Definition condition_3 (r : Row) : bool :=
  np.le (temp r) #90 && np.ge (temp r) #(-80).
Definition condition_4 (r : Row) : bool :=
  np.gt (dlw r) #0.

(** [condition_0 & condition_1 & condition_2 & condition_3 & condition_4] *)
Definition mask (r : Row) : bool :=
  condition_0 r && condition_1 r && condition_2 r && condition_3 r && condition_4 r.

(** What a run of the script computes: the Series the three formulas
    returned, the table as line 68 filters it, the table at the end of the
    script with the four columns added to it, and the four error
    statistics. *)
Record Run : Type := {
  returned_actual_epsilon : Series;
  returned_epsilon_clear_sky : Series;
  returned_CF : Series;
  data : DataFrame;
  final : Frame;
  errors : f64 * f64 * f64 * f64
}.

Definition script (sheet : list Row) : Run :=
  let data := read_excel sheet in
  let dhi_m := getitem DHI data in
  let ghi_m := getitem GHI data in
  let dni_m := getitem DNI data in
  let dni_c := getitem Clearsky_DNI data in
  let temp := getitem temp data in
  let dlw := getitem dlw data in
  let rh := getitem rh data in
  let altitude := getitem site_elev data in
  let epsilon_clouds := #1 in
  let data := filter (λ p, mask p.2 = true) data in
  let frame := {| rows := data; added := ∅ |} in
  let r_actual_epsilon := apply2 calculate_actual_epsilon temp dlw in
  let frame := setitem frame "actual_epsilon" r_actual_epsilon in
  let r_epsilon_clear_sky := apply3 calculate_clear_sky_emissivity temp rh altitude in
  let frame := setitem frame "epsilon_clear_sky" r_epsilon_clear_sky in
  let r_CF := apply4 calculate_cf dhi_m ghi_m dni_m dni_c in
  let frame := setitem frame "CF" r_CF in
  let frame :=
    setitem frame "predicted_epsilon"
      (apply2 (λ cf e, predict_epsilon_sky cf e epsilon_clouds)
         (column frame "CF") (column frame "epsilon_clear_sky")) in
  {| returned_actual_epsilon := r_actual_epsilon;
     returned_epsilon_clear_sky := r_epsilon_clear_sky;
     returned_CF := r_CF;
     data := data;
     final := frame;
     errors := calculate_errors (snd <$> column frame "actual_epsilon")
                 (snd <$> column frame "predicted_epsilon") |}.

End HIdata_error.

(** ** Sheets for the single-station script *)

Module sheets.

Import HIdata_error.
Local Open Scope f64_scope.

(** A row of finite values. *)
Definition finite_row (dhi ghi dni dni_c t dl rh elev sza : R) : Row :=
  {| DHI := #dhi; GHI := #ghi; DNI := #dni; Clearsky_DNI := #dni_c;
     temp := #t; dlw := #dl; rh := #rh; site_elev := #elev;
     Solar_Zenith_Angle := #sza |}.

(** The end-to-end scenario of the specification: GHI 500, 0, 500, 500,
    500, DHI 100, 50, 100, 100, 100 and temp 20, 20, 20, 95, 20; the
    other columns pass their filters. *)
Definition scenario : list Row :=
  [ finite_row 100 500 400 500 20 350 60 10 30;
    finite_row 50 0 400 500 20 350 60 10 30;
    finite_row 100 500 400 500 20 350 60 10 30;
    finite_row 100 500 400 500 95 350 60 10 30;
    finite_row 100 500 400 500 20 350 60 10 30 ].

(** A sheet of two rows, the second with a GHI of zero. *)
Definition zero_GHI : list Row :=
  [ finite_row 100 500 400 500 20 350 60 10 30;
    finite_row 50 0 400 500 20 350 60 10 30 ].

(** The labelled rows on which the table stands at the end of the
    script: the rows that line 68 retains or, when it retains none, all
    the rows of the sheet. *)
Definition effective (sheet : list Row) : DataFrame :=
  match data (script sheet) with
  | [] => read_excel sheet
  | d => d
  end.

(** The rows of the table at the end of the script: the retained rows
    or, when none is retained, a row of NaN under every label of the
    sheet. *)
Definition final_rows (sheet : list Row) : DataFrame :=
  match data (script sheet) with
  | [] => (λ p, (p.1, nan_row)) <$> read_excel sheet
  | d => d
  end.

(** A sheet of one row, with a GHI of zero. *)
Definition only_zero_GHI : list Row :=
  [ finite_row 50 0 400 500 20 350 60 10 30 ].

(** A sheet of two rows that fail the filter on the zenith angle only. *)
Definition low_sun : list Row :=
  [ finite_row 100 500 400 500 20 350 60 10 80;
    finite_row 120 450 300 500 25 360 70 10 85 ].

(** The second half of claim C1 as it is stated: the formula of the
    cloud fraction is evaluated only at rows that passed the filters,
    hence at no row with a zero GHI or a zero clearsky DNI. *)
Definition evaluated_on_retained_rows_only (sheet : list Row) : Prop :=
  ∀ (l : nat) (r : Row),
    sheet !! l = Some r →
    l ∈ index (returned_CF (script sheet)) →
    l ∈ (fst <$> data (script sheet))
    ∧ GHI r ≠ #0 ∧ Clearsky_DNI r ≠ #0.

End sheets.

(** ** The error metrics as the specification words them

    Section 4.3 of the specification, over the reals, to be compared with
    [HIdata_error.calculate_errors] and the loop of
    [models.validate_emissivity]. *)

Module metrics_spec.

Definition mean (xs : list R) : R := foldr Rplus 0 xs / INR (length xs).

Definition bias (predicted actual : list R) : R :=
  mean (zip_with Rminus predicted actual).

Definition rmse (predicted actual : list R) : R :=
  R_sqrt.sqrt (mean ((λ e, e ^ 2) <$> zip_with Rminus predicted actual)).

Definition relativeBias (predicted actual : list R) : R :=
  bias predicted actual / mean actual * 100.

Definition relativeRMSE (predicted actual : list R) : R :=
  rmse predicted actual / mean actual * 100.

End metrics_spec.

(** ** What the reader does with its stations *)

Module reading.

Import models.
Local Open Scope f64_scope.

(** The columns that [load_station] reads with [df[name]]. *)
Definition required_columns : list string :=
  ["ghi_m"; "ghi_c"; "dlw_m"; "t_m"; "pw_hpa"]%string.

(** The tables appended to [combined_data], in the order of the stations. *)
Definition loaded (file : HDFStore) (stations : list string) : list DataFrame :=
  omap (λ station,
          match load_station file station with
          | inr df => Some df
          | inl _ => None
          end) stations.

(** The lines printed, in the order of the stations. *)
Definition warnings (file : HDFStore) (stations : list string) : list string :=
  omap (λ station,
          match load_station file station with
          | inl (KeyError arg) => Some (warning arg station)
          | _ => None
          end) stations.

(** The second half of claim C2 as it is stated: a table that is in the
    file and lacks an expected column makes the reader fail. *)
Definition schema_error_surfaces (file : HDFStore) (stations : list string) : Prop :=
  ∀ (station : string) (df : DataFrame) (name : string),
    station ∈ stations →
    file !! station = Some df →
    name ∈ required_columns →
    columns df !! name = None →
    ∃ e : exn, read_surfrad_h5 file stations = inl e.

(** A table of two rows with the five columns, and the same table
    without its column ghi_m. *)
Definition complete_table : DataFrame :=
  {| nrows := 2;
     columns := list_to_map [("ghi_m", [Fin 400; Fin 600]); ("ghi_c", [Fin 800; Fin 500]);
                             ("dlw_m", [Fin 350; Fin 360]); ("t_m", [Fin 290; Fin 295]);
                             ("pw_hpa", [Fin 12; Fin 14])]%string;
     Station := [] |}.

Definition table_without_ghi_m : DataFrame :=
  {| nrows := 2;
     columns := list_to_map [("ghi_c", [Fin 800; Fin 500]);
                             ("dlw_m", [Fin 350; Fin 360]); ("t_m", [Fin 290; Fin 295]);
                             ("pw_hpa", [Fin 12; Fin 14])]%string;
     Station := [] |}.

(** A combined table of one row, as [validate_emissivity] takes it. *)
Definition one_row_table : DataFrame :=
  {| nrows := 1;
     columns := list_to_map [("Ta", [Fin 300]); ("ea", [Fin 10]);
                             ("Cloud_Fraction", [Fin 0]);
                             ("Emissivity_measured", [Fin 0.8])]%string;
     Station := ["DRA"]%string |}.

(** The emissivity that the jacobs model predicts on its row. *)
Definition one_row_predicted : list R :=
  [(1.24 * Rpower (10 / 300) (1 / 7) * sigma * 300 ^ 4 * (1 + 0.26 * 0)
    / (5.67e-8 * 300 ^ 4))%R].

Definition file_BON_DRA : HDFStore :=
  list_to_map [("BON", table_without_ghi_m); ("DRA", complete_table)]%string.

End reading.

(** ** The script at the end of models.py *)

Module selection.

Import models.

(** [min(iterable, key=key)] on an iterable that starts with [x]: an item
    replaces the best one so far when its key is smaller, so of several
    items with the smallest key the first one is returned. *)
Definition min_by {A : Type} (key : A → f64) (x : A) (xs : list A) : A :=
  foldl (λ best y, if np.lt (key y) (key best) then y else best) x xs.

(** [model_results[m]['RMSE']] for a key [m] of the table. *)
Definition RMSE_of (model_results : gmap string Report) (m : string) : f64 :=
  from_option RMSE NaN (model_results !! m).

(** [min(model_results, key=lambda m: model_results[m]['RMSE'])], where
    [keys] are the keys of the table in the order in which they were
    inserted; [None] is the [ValueError] of [min] on an empty table. *)
Definition best_model (keys : list string) (model_results : gmap string Report)
    : option string :=
  match keys with
  | [] => None
  | k :: ks => Some (min_by (RMSE_of model_results) k ks)
  end.

(** The selection scenario of the specification: the models A, B and C
    with the RMSE 5.0, 3.2 and 4.1. *)
Definition scenario_results : gmap string Report :=
  list_to_map [("A", {| MBE := Fin 0; RMSE := Fin 5; rMBE := Fin 0; rRMSE := Fin 0 |});
               ("B", {| MBE := Fin 0; RMSE := Fin 3.2; rMBE := Fin 0; rRMSE := Fin 0 |});
               ("C", {| MBE := Fin 0; RMSE := Fin 4.1; rMBE := Fin 0; rRMSE := Fin 0 |})]%string.

End selection.

(** ** Tables whose columns have one value per row *)

Module tables.

Import models.

Definition well_formed (df : DataFrame) : Prop :=
  ∀ (name : string) (xs : list f64),
    columns df !! name = Some xs → length xs = nrows df.

Definition tagged (df : DataFrame) : Prop :=
  length (Station df) = nrows df.

End tables.

(** * Properties *)

(** ** Arithmetic of [f64] on finite values *)

Local Open Scope f64_scope.

Ltac f64_cases :=
  repeat (case_decide; try lra); try reflexivity; try (f_equal; lra).

Lemma add_Fin (a b : R) : #a + #b = #(a + b).
Proof. reflexivity. Qed.

Lemma sub_Fin (a b : R) : #a - #b = #(a - b).
Proof. reflexivity. Qed.

Lemma mul_Fin (a b : R) : #a * #b = #(a * b).
Proof. reflexivity. Qed.

Lemma neg_Fin (a : R) : np.neg #a = #(- a).
Proof. reflexivity. Qed.

Lemma div_Fin (a b : R) : b ≠ 0%R → #a / #b = #(a / b).
Proof. intros Hb. cbn. by rewrite decide_False. Qed.

Lemma exp_Fin (a : R) : np.exp #a = #(Rtrigo_def.exp a).
Proof. reflexivity. Qed.

Lemma sqrt_Fin (a : R) : (0 <= a)%R → np.sqrt #a = #(R_sqrt.sqrt a).
Proof. intros Ha. cbn. rewrite decide_False; [reflexivity|lra]. Qed.

Lemma power_Fin (a y : R) : (0 < a)%R → #a ** y = #(Rpower a y).
Proof. intros Ha. cbn. by rewrite decide_True. Qed.

Lemma pow_int_Fin (a : R) (n : nat) : #a ^ n = #(a ^ n).
Proof.
  induction n as [|[|n] IH]; cbn; try (f_equal; lra).
  cbn in IH. rewrite IH. cbn. reflexivity.
Qed.

(** ** The model dispatcher *)

Section dispatcher.

Import models.

Context `{Elementwise A}.
Implicit Types Ta ea c : A.

Ltac dispatch :=
  unfold compute_cloudy_LW; cbn [default];
  repeat first [ rewrite decide_True by reflexivity
               | rewrite decide_False by discriminate ];
  reflexivity.

Lemma dispatch_maykut_church Ta ea c :
  compute_cloudy_LW Ta ea c (Some "maykut_church"%string)
  = inr (map2 maykut_church (map2 brutsaert_clear_sky Ta ea) c).
Proof. dispatch. Qed.

Lemma dispatch_jacobs Ta ea c :
  compute_cloudy_LW Ta ea c (Some "jacobs"%string)
  = inr (map2 jacobs (map2 brutsaert_clear_sky Ta ea) c).
Proof. dispatch. Qed.

Lemma dispatch_suguita_brutsaert Ta ea c :
  compute_cloudy_LW Ta ea c (Some "suguita_brutsaert"%string)
  = inr (map2 suguita_brutsaert (map2 brutsaert_clear_sky Ta ea) c).
Proof. dispatch. Qed.

Lemma dispatch_konzelmann Ta ea c :
  compute_cloudy_LW Ta ea c (Some "konzelmann"%string)
  = inr (map3 konzelmann (map2 brutsaert_clear_sky Ta ea) c Ta).
Proof. dispatch. Qed.

Lemma dispatch_crawford_duchon Ta ea c :
  compute_cloudy_LW Ta ea c (Some "crawford_duchon"%string)
  = inr (map3 crawford_duchon (map2 brutsaert_clear_sky Ta ea) c Ta).
Proof. dispatch. Qed.

Lemma dispatch_lhomme Ta ea c :
  compute_cloudy_LW Ta ea c (Some "lhomme"%string)
  = inr (map2 lhomme (map2 brutsaert_clear_sky Ta ea) c).
Proof. dispatch. Qed.

Lemma dispatch_unknown Ta ea c (model : string) :
  model ∉ model_names →
  compute_cloudy_LW Ta ea c (Some model) = inl invalid_model.
Proof.
  unfold model_names. intros Hm.
  repeat (apply not_elem_of_cons in Hm as [? Hm]).
  unfold compute_cloudy_LW; cbn [default].
  repeat (rewrite decide_False by assumption). reflexivity.
Qed.

Lemma dispatch_known Ta ea c (model : string) :
  model ∈ model_names →
  ∃ LW : A, compute_cloudy_LW Ta ea c (Some model) = inr LW.
Proof.
  unfold model_names. intros Hm.
  repeat (apply elem_of_cons in Hm as [->|Hm]); [..|by apply elem_of_nil in Hm].
  - eexists; apply dispatch_maykut_church.
  - eexists; apply dispatch_jacobs.
  - eexists; apply dispatch_suguita_brutsaert.
  - eexists; apply dispatch_konzelmann.
  - eexists; apply dispatch_crawford_duchon.
  - eexists; apply dispatch_lhomme.
Qed.

End dispatcher.

(** C3.  For all inputs [Ta], [ea], [c] (floats or columns),
    [compute_cloudy_LW] raises the "Invalid model name" error exactly when
    the model identifier is none of the six enumerated names, and it
    raises nothing else; for each of the six names it returns that one
    correction formula applied to the Brutsaert clear-sky baseline of [Ta]
    and [ea], with [Ta] passed on as well for konzelmann and
    crawford_duchon. *)
Theorem compute_cloudy_LW_dispatch `{Elementwise A} (Ta ea c : A) (model : string) :
  (models.compute_cloudy_LW Ta ea c (Some model) = inl models.invalid_model
   ↔ model ∉ models.model_names)
  ∧ (∀ e : exn, models.compute_cloudy_LW Ta ea c (Some model) = inl e
                → e = models.invalid_model ∧ model ∉ models.model_names)
  ∧ let LW_clear := map2 models.brutsaert_clear_sky Ta ea in
    models.compute_cloudy_LW Ta ea c (Some "maykut_church"%string)
      = inr (map2 models.maykut_church LW_clear c)
    ∧ models.compute_cloudy_LW Ta ea c (Some "jacobs"%string)
      = inr (map2 models.jacobs LW_clear c)
    ∧ models.compute_cloudy_LW Ta ea c (Some "suguita_brutsaert"%string)
      = inr (map2 models.suguita_brutsaert LW_clear c)
    ∧ models.compute_cloudy_LW Ta ea c (Some "konzelmann"%string)
      = inr (map3 models.konzelmann LW_clear c Ta)
    ∧ models.compute_cloudy_LW Ta ea c (Some "crawford_duchon"%string)
      = inr (map3 models.crawford_duchon LW_clear c Ta)
    ∧ models.compute_cloudy_LW Ta ea c (Some "lhomme"%string)
      = inr (map2 models.lhomme LW_clear c).
Proof.
  assert (Hknown : model ∈ models.model_names →
                   ∀ e, models.compute_cloudy_LW Ta ea c (Some model) ≠ inl e).
  { intros Hin e He. destruct (dispatch_known Ta ea c model Hin) as [LW HLW].
    congruence. }
  split; [|split].
  - split.
    + intros He Hin. exact (Hknown Hin _ He).
    + apply dispatch_unknown.
  - intros e He.
    destruct (decide (model ∈ models.model_names)) as [Hin|Hout].
    + destruct (Hknown Hin _ He).
    + rewrite (dispatch_unknown Ta ea c model Hout) in He.
      split; [congruence | assumption].
  - cbv zeta.
    rewrite dispatch_maykut_church, dispatch_jacobs, dispatch_suguita_brutsaert,
      dispatch_konzelmann, dispatch_crawford_duchon, dispatch_lhomme.
    repeat split.
Qed.

(** The scenario of the specification: the identifier "not_a_real_model". *)
Lemma compute_cloudy_LW_dispatch_witness :
  models.compute_cloudy_LW #300 #10 #0.5 (Some "not_a_real_model"%string)
  = inl models.invalid_model.
Proof.
  apply (proj1 (compute_cloudy_LW_dispatch #300 #10 #0.5 "not_a_real_model"%string)).
  unfold models.model_names. intros Hin.
  repeat (apply elem_of_cons in Hin as [Hin|Hin]; [discriminate Hin|]).
  by apply elem_of_nil in Hin.
Defined.

(** C8.  For every clear-sky flux [LW_clear], jacobs at cloud fraction 0
    returns [LW_clear] itself, and lhomme at cloud fraction 0 returns
    [1.03 * LW_clear], which is not [LW_clear] when that is finite and
    not zero; the dispatcher returns the same for the two names. *)
Theorem zero_cloud_jacobs_lhomme (LW_clear : f64) :
  models.jacobs LW_clear #0 = LW_clear
  ∧ models.lhomme LW_clear #0 = #1.03 * LW_clear
  ∧ (∀ r : R, r ≠ 0%R → models.lhomme #r #0 ≠ #r)
  ∧ (∀ Ta ea : f64,
       models.compute_cloudy_LW Ta ea #0 (Some "jacobs"%string)
         = inr (models.brutsaert_clear_sky Ta ea)
       ∧ models.compute_cloudy_LW Ta ea #0 (Some "lhomme"%string)
         = inr (#1.03 * models.brutsaert_clear_sky Ta ea)).
Proof.
  assert (Hj : ∀ x : f64, models.jacobs x #0 = x).
  { intros x. unfold models.jacobs.
    destruct x; cbn; unfold np.inf_of_sign; f64_cases. }
  assert (Hl : ∀ x : f64, models.lhomme x #0 = #1.03 * x).
  { intros x. unfold models.lhomme.
    destruct x; cbn; unfold np.inf_of_sign; f64_cases. }
  repeat split.
  - apply Hj.
  - apply Hl.
  - intros r Hr Heq. rewrite Hl in Heq. cbn in Heq.
    injection Heq as Heq. lra.
  - rewrite dispatch_jacobs. cbn [map2 scalar_elementwise]. by rewrite Hj.
  - rewrite dispatch_lhomme. cbn [map2 scalar_elementwise]. by rewrite Hl.
Qed.

Lemma zero_cloud_jacobs_lhomme_witness :
  models.jacobs #300 #0 = #300 ∧ models.lhomme #300 #0 ≠ #300.
Proof.
  split.
  - apply (zero_cloud_jacobs_lhomme #300).
  - apply (zero_cloud_jacobs_lhomme #300). lra.
Defined.

(** C10.  A call of [compute_cloudy_LW] that gives no model identifier
    computes the crawford_duchon correction: the default of the keyword
    argument is "crawford_duchon". *)
Theorem compute_cloudy_LW_default `{Elementwise A} (Ta ea c : A) :
  models.compute_cloudy_LW Ta ea c None
  = models.compute_cloudy_LW Ta ea c (Some "crawford_duchon"%string)
  ∧ models.compute_cloudy_LW Ta ea c None
    = inr (map3 models.crawford_duchon (map2 models.brutsaert_clear_sky Ta ea) c Ta).
Proof.
  split; [reflexivity|]. apply (dispatch_crawford_duchon Ta ea c).
Qed.

(** ** The clear-sky emissivity *)

Lemma exp_half_square (u : R) : Rtrigo_def.exp u = (Rtrigo_def.exp (u / 2) * Rtrigo_def.exp (u / 2))%R.
Proof. rewrite <- exp_plus. f_equal. lra. Qed.

Lemma exp_lower_square (u : R) : (0 < u)%R → ((1 + u / 2) * (1 + u / 2) < Rtrigo_def.exp u)%R.
Proof.
  intros Hu. rewrite (exp_half_square u).
  assert (1 + u / 2 < Rtrigo_def.exp (u / 2))%R by (apply exp_ineq1; lra).
  nra.
Qed.

(** C7.  The clear-sky emissivity is the one expression
    0.6 + 1.652 * sqrt((6.112 * exp(17.625*T / (T - 30.11 + 273.15)) * rh / 100) / 1013.25)
        + 0.15 * (exp(-a / 8500) - 1)
    in float arithmetic for all inputs; where the expression is defined
    over the reals (the quotient has a divisor that is not zero and the
    square root an argument that is not negative) its value is that real
    number; and the result is not clamped: at 90 degrees Celsius, 100
    percent humidity and sea level it is above 1. *)
Theorem clear_sky_emissivity_formula :
  (∀ T rh a : f64,
     HIdata_error.calculate_clear_sky_emissivity T rh a
     = #0.6 + #1.652 * np.sqrt ((#6.112 * np.exp (#17.625 * T / (T - #30.11 + #273.15))
                                 * rh / #100) / #1013.25)
       + #0.15 * (np.exp (np.neg a / #8500) - #1))
  ∧ (∀ T rh a : R,
       (T - 30.11 + 273.15 ≠ 0)%R → (0 <= rh)%R →
       HIdata_error.calculate_clear_sky_emissivity #T #rh #a
       = #(0.6 + 1.652 * R_sqrt.sqrt ((6.112 * Rtrigo_def.exp (17.625 * T / (T - 30.11 + 273.15))
                                        * rh / 100) / 1013.25)
           + 0.15 * (Rtrigo_def.exp (- a / 8500) - 1)))
  ∧ (∃ r : R, HIdata_error.calculate_clear_sky_emissivity #90 #100 #0 = #r ∧ (1 < r)%R).
Proof.
  assert (Hreal : ∀ T rh a : R,
       (T - 30.11 + 273.15 ≠ 0)%R → (0 <= rh)%R →
       HIdata_error.calculate_clear_sky_emissivity #T #rh #a
       = #(0.6 + 1.652 * R_sqrt.sqrt ((6.112 * Rtrigo_def.exp (17.625 * T / (T - 30.11 + 273.15))
                                        * rh / 100) / 1013.25)
           + 0.15 * (Rtrigo_def.exp (- a / 8500) - 1))).
  { intros T rh a HT Hrh.
    unfold HIdata_error.calculate_clear_sky_emissivity, HIdata_error.H.
    rewrite sub_Fin, add_Fin, mul_Fin, div_Fin, exp_Fin, !mul_Fin by assumption.
    rewrite neg_Fin, !div_Fin, exp_Fin, sub_Fin by lra.
    rewrite sqrt_Fin.
    - rewrite !mul_Fin, !add_Fin. reflexivity.
    - set (e := Rtrigo_def.exp _).
      assert (0 < e)%R by apply exp_pos.
      apply Rmult_le_pos; [|lra].
      apply Rmult_le_pos; [|lra]. apply Rmult_le_pos; [nra|assumption]. }
  split; [reflexivity|]. split; [exact Hreal|].
  eexists. split; [apply Hreal; lra|].
  set (u := (17.625 * 90 / (90 - 30.11 + 273.15))%R).
  assert (Hu : (4.7 < u)%R).
  { unfold u. replace (90 - 30.11 + 273.15)%R with 333.04%R by lra. lra. }
  assert (He : (11 < Rtrigo_def.exp u)%R).
  { pose proof (exp_lower_square u ltac:(lra)). nra. }
  replace (Rtrigo_def.exp (- 0 / 8500)) with 1%R
    by (replace (- 0 / 8500)%R with 0%R by lra; symmetry; apply exp_0).
  assert (Hs : (0.25 < R_sqrt.sqrt (6.112 * Rtrigo_def.exp u * 100 / 100 / 1013.25))%R).
  { rewrite <- (sqrt_square 0.25) at 1 by lra.
    apply sqrt_lt_1_alt. lra. }
  lra.
Qed.

Lemma clear_sky_emissivity_formula_witness :
  HIdata_error.calculate_clear_sky_emissivity #20 #50 #100
  = #(0.6 + 1.652 * R_sqrt.sqrt ((6.112 * Rtrigo_def.exp (17.625 * 20 / (20 - 30.11 + 273.15))
                                   * 50 / 100) / 1013.25)
      + 0.15 * (Rtrigo_def.exp (- 100 / 8500) - 1)).
Proof.
  apply (proj1 (proj2 clear_sky_emissivity_formula) 20%R 50%R 100%R); lra.
Defined.

(** ** The error metrics *)

Lemma filter_not_nan_Fin (xs : list R) :
  filter (λ x, np.isnan x = false) (Fin <$> xs) = Fin <$> xs.
Proof.
  induction xs as [|x xs IH]; [reflexivity|].
  rewrite fmap_cons, filter_cons_True by reflexivity. by rewrite IH.
Qed.

Lemma sum_Fin (xs : list R) : np.sum (Fin <$> xs) = #(foldr Rplus 0 xs).
Proof.
  induction xs as [|x xs IH]; [reflexivity|].
  rewrite fmap_cons. unfold np.sum in *. cbn [foldr]. by rewrite IH.
Qed.

Lemma INR_length_pos {X : Type} (xs : list X) : xs ≠ [] → (0 < INR (length xs))%R.
Proof.
  intros Hxs. destruct xs as [|x xs]; [done|].
  apply lt_0_INR. cbn. lia.
Qed.

Lemma mean_Fin (xs : list R) :
  xs ≠ [] → np.mean (Fin <$> xs) = #(metrics_spec.mean xs).
Proof.
  intros Hxs. unfold np.mean. rewrite filter_not_nan_Fin.
  destruct xs as [|x xs]; [done|].
  rewrite fmap_cons. rewrite <- fmap_cons.
  change (np.sum (Fin <$> x :: xs) / #(INR (length (Fin <$> x :: xs))) = #(metrics_spec.mean (x :: xs))).
  rewrite sum_Fin, length_fmap, div_Fin; [reflexivity|].
  pose proof (INR_length_pos (x :: xs) Hxs). lra.
Qed.

Lemma mean_spec_nil : metrics_spec.mean [] = 0%R.
Proof. unfold metrics_spec.mean. cbn. unfold Rdiv. apply Rmult_0_l. Qed.

Lemma zip_with_sub_Fin (xs ys : list R) :
  zip_with np.sub (Fin <$> xs) (Fin <$> ys) = Fin <$> zip_with Rminus xs ys.
Proof.
  revert ys. induction xs as [|x xs IH]; intros [|y ys]; cbn; try reflexivity.
  f_equal. apply IH.
Qed.

Lemma square_Fin (xs : list R) :
  (λ e, e ^ 2) <$> (Fin <$> xs) = Fin <$> ((λ e, (e ^ 2)%R) <$> xs).
Proof.
  induction xs as [|x xs IH]; [reflexivity|].
  rewrite !fmap_cons, IH. f_equal. apply pow_int_Fin.
Qed.

Lemma foldr_squares_nonneg (xs : list R) :
  (0 <= foldr Rplus 0 ((λ e, (e ^ 2)%R) <$> xs))%R.
Proof.
  induction xs as [|x xs IH]; cbn; [lra|].
  pose proof (pow2_ge_0 x). cbn in *. lra.
Qed.

Lemma mean_squares_nonneg (xs : list R) :
  (0 <= metrics_spec.mean ((λ e, (e ^ 2)%R) <$> xs))%R.
Proof.
  unfold metrics_spec.mean. destruct xs as [|x xs].
  - cbn. unfold Rdiv. rewrite Rmult_0_l. lra.
  - apply Rmult_le_pos; [apply foldr_squares_nonneg|].
    apply Rlt_le, Rinv_0_lt_compat, INR_length_pos. done.
Qed.

(** The four statistics of two finite columns, as both programs compute
    them. *)
Lemma statistics_Fin (predicted actual : list R) :
  length predicted = length actual →
  metrics_spec.mean actual ≠ 0%R →
  let error := zip_with np.sub (Fin <$> predicted) (Fin <$> actual) in
  np.mean error = #(metrics_spec.bias predicted actual)
  ∧ np.sqrt (np.mean ((λ e, e ^ 2) <$> error)) = #(metrics_spec.rmse predicted actual)
  ∧ np.mean (Fin <$> actual) = #(metrics_spec.mean actual).
Proof.
  intros Hlen Hmean error.
  assert (Hactual : actual ≠ []).
  { intros ->. apply Hmean, mean_spec_nil. }
  assert (Herr : zip_with Rminus predicted actual ≠ []).
  { destruct predicted, actual; cbn in *; done. }
  unfold error. rewrite zip_with_sub_Fin, square_Fin.
  rewrite !mean_Fin; try assumption.
  - rewrite sqrt_Fin by apply mean_squares_nonneg. done.
  - destruct (zip_with Rminus predicted actual); done.
Qed.

(** The table that [validate_emissivity] returns holds, under each model
    of its list, the report of that model's turn of the loop. *)
Lemma validate_loop_lookup (data : models.DataFrame) (models : list string)
    (acc results : gmap string models.Report) :
  models.validate_loop data models acc = inr results →
  ∀ (m : string) (rep : models.Report),
    results !! m = Some rep
    ↔ ((m ∈ models ∧ models.validate_model data m = inr rep)
       ∨ ((m ∉ models) ∧ acc !! m = Some rep)).
Proof.
  revert acc. induction models as [|m0 ms IH]; intros acc Hloop m rep.
  - cbn in Hloop. injection Hloop as <-. split.
    + intros Hm. right. split; [apply not_elem_of_nil|done].
    + intros [[Hm _]|[_ Hm]]; [by apply elem_of_nil in Hm|done].
  - cbn [models.validate_loop] in Hloop.
    destruct (models.validate_model data m0) as [e|rep0] eqn:Hm0; [discriminate|].
    cbn in Hloop. rewrite (IH _ Hloop m rep). split.
    + intros [[Hin Hrep]|[Hout Hacc]].
      * left. split; [apply elem_of_cons; by right|done].
      * destruct (decide (m = m0)) as [->|Hne].
        -- rewrite lookup_insert_eq in Hacc. injection Hacc as <-.
           left. split; [apply elem_of_cons; by left|done].
        -- rewrite lookup_insert_ne in Hacc by done.
           right. split; [|done]. by apply not_elem_of_cons.
    + intros [[Hin Hrep]|[Hout Hacc]].
      * destruct (decide (m ∈ ms)) as [Hms|Hms]; [by left|].
        apply elem_of_cons in Hin as [->|Hin]; [|done].
        right. split; [done|]. rewrite lookup_insert_eq. congruence.
      * apply not_elem_of_cons in Hout as [Hne Hout].
        right. split; [done|]. by rewrite lookup_insert_ne.
Qed.



Lemma relative_error_scenario :
  metrics_spec.bias [1.1; 0.9; 1]%R [1; 1; 1]%R = 0%R
  ∧ metrics_spec.rmse [1.1; 0.9; 1]%R [1; 1; 1]%R = R_sqrt.sqrt (0.02 / 3)
  ∧ metrics_spec.relativeBias [1.1; 0.9; 1]%R [1; 1; 1]%R = 0%R
  ∧ metrics_spec.relativeRMSE [1.1; 0.9; 1]%R [1; 1; 1]%R = (R_sqrt.sqrt (0.02 / 3) * 100)%R.
Proof.
  assert (Hb : metrics_spec.bias [1.1; 0.9; 1]%R [1; 1; 1]%R = 0%R).
  { unfold metrics_spec.bias, metrics_spec.mean. cbn. lra. }
  assert (Hm : metrics_spec.mean [1; 1; 1]%R = 1%R).
  { unfold metrics_spec.mean. cbn. lra. }
  assert (Hr : metrics_spec.rmse [1.1; 0.9; 1]%R [1; 1; 1]%R = R_sqrt.sqrt (0.02 / 3)).
  { unfold metrics_spec.rmse, metrics_spec.mean. cbn. f_equal. lra. }
  unfold metrics_spec.relativeBias, metrics_spec.relativeRMSE.
  rewrite Hb, Hm, Hr. repeat split; lra.
Qed.

(** ** Loading one station *)

Lemma zip_with_fmap_after {X Y Z W : Type} (g : Z → W) (f : X → Y → Z) (xs : list X) (ys : list Y) :
  g <$> zip_with f xs ys = zip_with (λ x y, g (f x y)) xs ys.
Proof.
  revert ys. induction xs as [|x xs IH]; intros [|y ys]; cbn; try reflexivity.
  f_equal. apply IH.
Qed.

(** A table that has the five columns the reader needs loads, and this
    is the table it becomes. *)
Lemma load_station_inr (file : gmap string models.DataFrame) (station : string)
    (df : models.DataFrame) (ghi_m ghi_c dlw_m t_m pw_hpa : list f64) :
  file !! station = Some df →
  models.columns df !! "ghi_m"%string = Some ghi_m →
  models.columns df !! "ghi_c"%string = Some ghi_c →
  models.columns df !! "dlw_m"%string = Some dlw_m →
  models.columns df !! "t_m"%string = Some t_m →
  models.columns df !! "pw_hpa"%string = Some pw_hpa →
  models.load_station file station
  = inr (models.set_Station
           (models.setitem
              (models.setitem
                 (models.setitem
                    (models.setitem df "Cloud_Fraction"
                       (models.calculate_cloud_fraction ghi_m ghi_c
                          (models.columns df !! "clr_pct"%string)))
                    "Emissivity_measured" (zip_with models.compute_emissivity dlw_m t_m))
                 "Ta" t_m)
              "ea" pw_hpa)
           station).
Proof.
  intros Hdf Hm Hc Hdlw Ht Hpw.
  unfold models.load_station, models.read_hdf, models.getitem, models.get.
  rewrite Hdf. cbn [mbind exn_bind]. rewrite Hm, Hc. cbn [mbind exn_bind].
  cbn [models.columns models.setitem].
  rewrite !lookup_insert_ne by done. rewrite Hdlw, Ht. cbn [mbind exn_bind].
  cbn [models.columns models.setitem].
  rewrite !lookup_insert_ne by done. rewrite Ht. cbn [mbind exn_bind].
  cbn [models.columns models.setitem].
  rewrite !lookup_insert_ne by done. rewrite Hpw. reflexivity.
Qed.

(** C6.  A station's table that loads gets the column Cloud_Fraction:
    when the table has a column clr_pct it is 1 - clr_pct on each row,
    and otherwise 1 - ghi_m/ghi_c clipped to the interval from 0 to 1 on
    each row; over the reals, for a clear-sky irradiance that is not zero,
    the latter is min(max(1 - ghi_m/ghi_c, 0), 1), a number between 0 and
    1. *)
Theorem cloud_fraction_column (file : gmap string models.DataFrame) (station : string)
    (df : models.DataFrame) (ghi_m ghi_c dlw_m t_m pw_hpa : list f64) :
  file !! station = Some df →
  models.columns df !! "ghi_m"%string = Some ghi_m →
  models.columns df !! "ghi_c"%string = Some ghi_c →
  models.columns df !! "dlw_m"%string = Some dlw_m →
  models.columns df !! "t_m"%string = Some t_m →
  models.columns df !! "pw_hpa"%string = Some pw_hpa →
  (∃ df' : models.DataFrame,
     models.load_station file station = inr df'
     ∧ models.columns df' !! "Cloud_Fraction"%string
       = Some match models.columns df !! "clr_pct"%string with
              | Some clr_pct => (λ clr_pct, #1 - clr_pct) <$> clr_pct
              | None => zip_with (λ ghi_m ghi_c, np.clip (#1 - ghi_m / ghi_c) 0 1) ghi_m ghi_c
              end)
  ∧ (∀ m c clr : f64,
       models.calculate_cloud_fraction m c (Some clr) = #1 - clr
       ∧ models.calculate_cloud_fraction m c None = np.clip (#1 - m / c) 0 1)
  ∧ (∀ m c : R,
       c ≠ 0%R →
       models.calculate_cloud_fraction #m #c None = #(Rmin (Rmax (1 - m / c) 0) 1)
       ∧ (0 <= Rmin (Rmax (1 - m / c) 0) 1 <= 1)%R).
Proof.
  intros Hdf Hm Hc Hdlw Ht Hpw. split; [|split].
  - eexists. split; [by eapply load_station_inr|].
    cbn [models.columns models.setitem models.set_Station].
    rewrite lookup_delete_ne by done.
    rewrite !lookup_insert_ne by done. rewrite lookup_insert_eq. f_equal.
    unfold models.calculate_cloud_fraction.
    destruct (models.columns df !! "clr_pct"%string) as [clr|]; [reflexivity|].
    cbn [map1 map2 column_elementwise]. apply zip_with_fmap_after.
  - intros m c clr. split; reflexivity.
  - intros m c Hne. split.
    + unfold models.calculate_cloud_fraction. cbn [map1 map2 scalar_elementwise].
      by rewrite div_Fin, sub_Fin.
    + unfold Rmin, Rmax. repeat destruct (Rle_dec _ _); lra.
Qed.

Lemma cloud_fraction_column_witness :
  ∃ df' : models.DataFrame,
    models.load_station reading.file_BON_DRA "DRA" = inr df'
    ∧ models.columns df' !! "Cloud_Fraction"%string
      = Some (zip_with (λ ghi_m ghi_c, np.clip (#1 - ghi_m / ghi_c) 0 1)
                [Fin 400; Fin 600] [Fin 800; Fin 500]).
Proof.
  apply (proj1 (cloud_fraction_column reading.file_BON_DRA "DRA" reading.complete_table
                  [Fin 400; Fin 600] [Fin 800; Fin 500] [Fin 350; Fin 360] [Fin 290; Fin 295] [Fin 12; Fin 14]
                  eq_refl eq_refl eq_refl eq_refl eq_refl eq_refl)).
Defined.

(** ** The reader of the stations *)

(** [load_station], one lookup after the other. *)
Lemma load_station_unfold (file : gmap string models.DataFrame) (station : string) :
  models.load_station file station
  = match file !! station with
    | None => inl (KeyError ("No object named " +:+ station +:+ " in the file"))
    | Some df =>
        match models.columns df !! "ghi_m"%string with
        | None => inl (KeyError "ghi_m")
        | Some ghi_m =>
        match models.columns df !! "ghi_c"%string with
        | None => inl (KeyError "ghi_c")
        | Some ghi_c =>
        match models.columns df !! "dlw_m"%string with
        | None => inl (KeyError "dlw_m")
        | Some dlw_m =>
        match models.columns df !! "t_m"%string with
        | None => inl (KeyError "t_m")
        | Some t_m =>
        match models.columns df !! "pw_hpa"%string with
        | None => inl (KeyError "pw_hpa")
        | Some pw_hpa =>
            inr (models.set_Station
                   (models.setitem
                      (models.setitem
                         (models.setitem
                            (models.setitem df "Cloud_Fraction"
                               (models.calculate_cloud_fraction ghi_m ghi_c
                                  (models.columns df !! "clr_pct"%string)))
                            "Emissivity_measured"
                            (zip_with models.compute_emissivity dlw_m t_m))
                         "Ta" t_m)
                      "ea" pw_hpa)
                   station)
        end end end end end
    end.
Proof.
  destruct (file !! station) as [df|] eqn:Hdf.
  2:{ unfold models.load_station, models.read_hdf. by rewrite Hdf. }
  destruct (models.columns df !! "ghi_m"%string) as [ghi_m|] eqn:Hm.
  2:{ unfold models.load_station, models.read_hdf, models.getitem.
      rewrite Hdf. cbn [mbind exn_bind]. by rewrite Hm. }
  destruct (models.columns df !! "ghi_c"%string) as [ghi_c|] eqn:Hc.
  2:{ unfold models.load_station, models.read_hdf, models.getitem.
      rewrite Hdf. cbn [mbind exn_bind]. rewrite Hm. cbn [mbind exn_bind].
      by rewrite Hc. }
  destruct (models.columns df !! "dlw_m"%string) as [dlw_m|] eqn:Hdlw.
  2:{ unfold models.load_station, models.read_hdf, models.getitem.
      rewrite Hdf. cbn [mbind exn_bind]. rewrite Hm, Hc. cbn [mbind exn_bind].
      cbn [models.columns models.setitem].
      rewrite !lookup_insert_ne by done. by rewrite Hdlw. }
  destruct (models.columns df !! "t_m"%string) as [t_m|] eqn:Ht.
  2:{ unfold models.load_station, models.read_hdf, models.getitem.
      rewrite Hdf. cbn [mbind exn_bind]. rewrite Hm, Hc. cbn [mbind exn_bind].
      cbn [models.columns models.setitem].
      rewrite !lookup_insert_ne by done. rewrite Hdlw, Ht. reflexivity. }
  destruct (models.columns df !! "pw_hpa"%string) as [pw_hpa|] eqn:Hpw.
  2:{ unfold models.load_station, models.read_hdf, models.getitem.
      rewrite Hdf. cbn [mbind exn_bind]. rewrite Hm, Hc. cbn [mbind exn_bind].
      cbn [models.columns models.setitem].
      rewrite !lookup_insert_ne by done. rewrite Hdlw, Ht. cbn [mbind exn_bind].
      cbn [models.columns models.setitem].
      rewrite !lookup_insert_ne by done. rewrite Ht. cbn [mbind exn_bind].
      cbn [models.columns models.setitem].
      rewrite !lookup_insert_ne by done. by rewrite Hpw. }
  by eapply load_station_inr.
Qed.

(** The body of the [try] raises nothing but [KeyError]. *)
Lemma load_station_error (file : gmap string models.DataFrame) (station : string) (e : exn) :
  models.load_station file station = inl e → ∃ arg : string, e = KeyError arg.
Proof.
  rewrite load_station_unfold.
  repeat (case_match; try discriminate); intros [= <-]; by eexists.
Qed.

(** A station is skipped exactly when its key is not in the file or its
    table lacks one of the five columns. *)
Lemma load_station_skipped (file : gmap string models.DataFrame) (station : string) :
  (∃ arg : string, models.load_station file station = inl (KeyError arg))
  ↔ (file !! station = None
     ∨ ∃ (df : models.DataFrame) (name : string),
         file !! station = Some df
         ∧ name ∈ reading.required_columns
         ∧ models.columns df !! name = None).
Proof.
  rewrite load_station_unfold. split.
  - intros [arg Harg].
    destruct (file !! station) as [df|] eqn:Hdf; [|by left].
    right. exists df. unfold reading.required_columns.
    repeat (case_match; [|eexists; split; [done|]; split; [|eassumption];
                          repeat first [ apply list_elem_of_here
                                       | apply list_elem_of_further ]]).
    discriminate.
  - intros [->|(df & name & -> & Hin & Hname)]; [by eexists|].
    unfold reading.required_columns in Hin.
    repeat (apply elem_of_cons in Hin as [->|Hin]); [..|by apply elem_of_nil in Hin];
      repeat case_match; first [congruence | by eexists].
Qed.

(** The loop never raises: each station either adds its table or prints
    its warning. *)
Lemma read_stations_spec (file : gmap string models.DataFrame) (stations : list string)
    (combined_data : list models.DataFrame) (printed : list string) :
  models.read_stations file stations combined_data printed
  = inr (combined_data ++ reading.loaded file stations,
         printed ++ reading.warnings file stations).
Proof.
  revert combined_data printed.
  induction stations as [|station stations IH]; intros combined_data printed.
  - cbn. by rewrite !app_nil_r.
  - cbn [models.read_stations]. unfold reading.loaded, reading.warnings.
    cbn [omap list_omap].
    destruct (models.load_station file station) as [e|df] eqn:Hload.
    + destruct (load_station_error _ _ _ Hload) as [arg ->].
      rewrite IH. unfold reading.loaded, reading.warnings.
      by rewrite <- app_assoc.
    + rewrite IH. unfold reading.loaded, reading.warnings.
      by rewrite <- app_assoc.
Qed.

Lemma read_surfrad_h5_spec (file : gmap string models.DataFrame) (stations : list string) :
  models.read_surfrad_h5 file stations
  = match reading.loaded file stations with
    | [] => inl (ValueError "No objects to concatenate")
    | df :: rest => inr (foldl models.concat2 df rest, reading.warnings file stations)
    end.
Proof.
  unfold models.read_surfrad_h5. rewrite read_stations_spec.
  cbn [mbind exn_bind app]. by destruct (reading.loaded file stations).
Qed.

Lemma elem_of_loaded (file : gmap string models.DataFrame) (stations : list string)
    (df : models.DataFrame) :
  df ∈ reading.loaded file stations
  ↔ ∃ station : string, station ∈ stations ∧ models.load_station file station = inr df.
Proof.
  unfold reading.loaded. rewrite list_elem_of_omap. split.
  - intros (station & Hin & Hload). exists station. split; [done|].
    destruct (models.load_station file station); congruence.
  - intros (station & Hin & Hload). exists station. split; [done|].
    by rewrite Hload.
Qed.

Lemma elem_of_warnings (file : gmap string models.DataFrame) (stations : list string)
    (line : string) :
  line ∈ reading.warnings file stations
  ↔ ∃ station arg : string,
      station ∈ stations
      ∧ models.load_station file station = inl (KeyError arg)
      ∧ line = models.warning arg station.
Proof.
  unfold reading.warnings. rewrite list_elem_of_omap. split.
  - intros (station & Hin & Hload).
    destruct (models.load_station file station) as [[arg|msg]|df] eqn:Hl;
      try discriminate.
    injection Hload as <-. by exists station, arg.
  - intros (station & arg & Hin & Hload & ->). exists station. split; [done|].
    by rewrite Hload.
Qed.

(** C2, as the code has it.  A station is skipped when its key is not in
    the file and also when its table is there and lacks one of the columns
    ghi_m, ghi_c, dlw_m, t_m, pw_hpa: both raise [KeyError] inside the
    [try].  The loop raises nothing: every station of the list either
    adds its table or prints its warning, in the order of the list, and
    the reader returns the concatenation of the tables that loaded
    together with the warnings; it fails only when no table loaded. *)
Theorem missing_key_or_column_skips (file : gmap string models.DataFrame)
    (stations : list string) :
  (∀ station : string,
     (∃ arg : string, models.load_station file station = inl (KeyError arg))
     ↔ (file !! station = None
        ∨ ∃ (df : models.DataFrame) (name : string),
            file !! station = Some df
            ∧ name ∈ reading.required_columns
            ∧ models.columns df !! name = None))
  ∧ models.read_stations file stations [] []
    = inr (reading.loaded file stations, reading.warnings file stations)
  ∧ models.read_surfrad_h5 file stations
    = match reading.loaded file stations with
      | [] => inl (ValueError "No objects to concatenate")
      | df :: rest => inr (foldl models.concat2 df rest, reading.warnings file stations)
      end
  ∧ (∀ station : string,
       station ∈ stations →
       (∃ df : models.DataFrame,
          models.load_station file station = inr df ∧ df ∈ reading.loaded file stations)
       ∨ (∃ arg : string,
            models.load_station file station = inl (KeyError arg)
            ∧ models.warning arg station ∈ reading.warnings file stations))
  ∧ (length (reading.loaded file stations) + length (reading.warnings file stations)
     = length stations)%nat.
Proof.
  split; [apply load_station_skipped|].
  split; [by rewrite read_stations_spec|].
  split; [apply read_surfrad_h5_spec|].
  split.
  - intros station Hin.
    destruct (models.load_station file station) as [e|df] eqn:Hload.
    + right. destruct (load_station_error _ _ _ Hload) as [arg ->].
      exists arg. split; [done|]. apply elem_of_warnings. by exists station, arg.
    + left. exists df. split; [done|]. apply elem_of_loaded. by exists station.
  - unfold reading.loaded, reading.warnings.
    induction stations as [|station stations IH]; [reflexivity|].
    cbn [omap list_omap length].
    destruct (models.load_station file station) as [e|df] eqn:Hload.
    + destruct (load_station_error _ _ _ Hload) as [arg ->]. cbn [length]. lia.
    + cbn [length]. lia.
Qed.

(** C2, as it is stated, fails: the table of BON is in the file without
    its column ghi_m, and the reader returns the table of DRA and prints a
    warning for BON. *)
Lemma schema_error_is_skipped :
  (∃ df : models.DataFrame,
     models.read_surfrad_h5 reading.file_BON_DRA ["BON"; "DRA"]%string
     = inr (df, ["Warning: 'ghi_m'. Skipping station BON."]%string)
     ∧ models.Station df = ["DRA"; "DRA"]%string)
  ∧ ¬ reading.schema_error_surfaces reading.file_BON_DRA ["BON"; "DRA"]%string.
Proof.
  assert (HBON : models.load_station reading.file_BON_DRA "BON" = inl (KeyError "ghi_m")).
  { rewrite load_station_unfold. reflexivity. }
  assert (HDRA : ∃ df, models.load_station reading.file_BON_DRA "DRA" = inr df
                       ∧ models.Station df = ["DRA"; "DRA"]%string).
  { rewrite load_station_unfold. eexists. split; reflexivity. }
  destruct HDRA as (df & HDRA & Htag).
  assert (Hread : models.read_surfrad_h5 reading.file_BON_DRA ["BON"; "DRA"]%string
                  = inr (df, ["Warning: 'ghi_m'. Skipping station BON."]%string)).
  { rewrite read_surfrad_h5_spec. unfold reading.loaded, reading.warnings.
    cbn [omap list_omap]. rewrite HBON, HDRA. reflexivity. }
  split.
  - by exists df.
  - intros Hclaim.
    destruct (Hclaim "BON"%string reading.table_without_ghi_m "ghi_m"%string) as [e He].
    + apply elem_of_cons; by left.
    + reflexivity.
    + unfold reading.required_columns. apply elem_of_cons; by left.
    + reflexivity.
    + rewrite Hread in He. discriminate.
Qed.

(** C9.  When none of the requested stations is in the file, the reader
    returns no table, not even an empty one: every station is skipped and
    the concatenation of no table raises [ValueError]. *)
Theorem read_surfrad_h5_all_missing (file : gmap string models.DataFrame)
    (stations : list string) :
  (∀ station : string, station ∈ stations → file !! station = None) →
  models.read_surfrad_h5 file stations = inl (ValueError "No objects to concatenate")
  ∧ (∀ result : models.DataFrame * list string,
       models.read_surfrad_h5 file stations ≠ inr result)
  ∧ length (reading.warnings file stations) = length stations.
Proof.
  intros Hmissing.
  assert (Hload : ∀ station, station ∈ stations →
            ∃ arg, models.load_station file station = inl (KeyError arg)).
  { intros station Hin. apply load_station_skipped. left. by apply Hmissing. }
  assert (Hnone : reading.loaded file stations = []
                  ∧ length (reading.warnings file stations) = length stations).
  { unfold reading.loaded, reading.warnings. clear Hmissing.
    induction stations as [|station stations IH]; [done|].
    cbn [omap list_omap].
    destruct (Hload station) as [arg Harg]; [apply elem_of_cons; by left|].
    rewrite Harg. cbn beta iota.
    destruct IH as [IH1 IH2].
    - intros s Hs. apply Hload, elem_of_cons. by right.
    - rewrite IH1. split; [done|]. cbn [length]. by rewrite IH2. }
  destruct Hnone as [Hnone Hlen].
  assert (Hfail : models.read_surfrad_h5 file stations
                  = inl (ValueError "No objects to concatenate")).
  { rewrite read_surfrad_h5_spec. by rewrite Hnone. }
  split; [done|]. split; [|done].
  intros result. rewrite Hfail. discriminate.
Qed.

Lemma read_surfrad_h5_all_missing_witness :
  models.read_surfrad_h5 ∅ ["BON"; "DRA"; "FPK"; "GWC"; "PSU"; "SXF"; "TBL"]%string
  = inl (ValueError "No objects to concatenate").
Proof.
  apply (read_surfrad_h5_all_missing ∅ ["BON"; "DRA"; "FPK"; "GWC"; "PSU"; "SXF"; "TBL"]%string).
  intros station _. apply lookup_empty.
Defined.

(** ** The single-station script: labels, filtering and alignment *)

Section labelled.

Import HIdata_error.

Context {X : Type}.
Implicit Types (s : list (nat * X)) (l : nat).

Lemma loc_None s l : l ∉ (fst <$> s) → loc s l = None.
Proof.
  induction s as [|[l' x] s IH]; [done|]. cbn. intros Hl.
  apply not_elem_of_cons in Hl as [Hne Hl].
  rewrite decide_False by done. by apply IH.
Qed.

Lemma loc_Some_elem s l x : loc s l = Some x → (l, x) ∈ s.
Proof.
  induction s as [|[l' x'] s IH]; [done|]. cbn.
  case_decide as Hl.
  - intros [= ->]. subst. apply elem_of_cons. by left.
  - intros Hx. apply elem_of_cons. right. by apply IH.
Qed.

Lemma elem_loc s l x : NoDup (fst <$> s) → (l, x) ∈ s → loc s l = Some x.
Proof.
  induction s as [|[l' x'] s IH]; intros Hnd Hin.
  - by apply elem_of_nil in Hin.
  - rewrite fmap_cons in Hnd. apply NoDup_cons in Hnd as [Hl' Hnd].
    apply elem_of_cons in Hin as [[= -> ->]|Hin]; cbn.
    + by rewrite decide_True.
    + rewrite decide_False; [by apply IH|].
      intros ->. apply Hl'. apply list_elem_of_fmap. by exists (l, x).
Qed.

Lemma loc_fmap {Y : Type} (g : nat → X → Y) s l :
  loc ((λ p, (p.1, g p.1 p.2)) <$> s) l = g l <$> loc s l.
Proof.
  induction s as [|[l' x] s IH]; [done|]. cbn.
  case_decide as Hl; [by subst|]. apply IH.
Qed.

Lemma loc_filter (P : nat * X → Prop) `{∀ p, Decision (P p)} s l :
NoDup (fst <$> s) →
loc (filter P s) l
= match loc s l with
  | Some x => if decide (P (l, x)) then Some x else None
  | None => None
  end.
Proof.
  induction s as [|[l' x] s IH]; intros Hnd; [done|].
  rewrite fmap_cons in Hnd. apply NoDup_cons in Hnd as [Hl' Hnd].
  cbn [loc]. destruct (decide (P (l', x))) as [HP|HP].
  - rewrite filter_cons_True by done. cbn [loc].
    case_decide; [subst; by rewrite decide_True|by apply IH].
  - rewrite filter_cons_False by done.
    case_decide as Hl; [|by apply IH].
    subst l'. rewrite decide_False by done. apply loc_None.
    intros Hin. apply Hl'.
    apply list_elem_of_fmap in Hin as ([l' x'] & -> & Hin).
    apply list_elem_of_filter in Hin as [_ Hin].
    apply list_elem_of_fmap. by exists (l', x').
Qed.

Lemma loc_zip_seq (xs : list X) (n l : nat) :
  loc (zip (seq n (length xs)) xs) l = if decide (l < n)%nat then None else xs !! (l - n)%nat.
Proof.
  revert n. induction xs as [|x xs IH]; intros n.
  - cbn. by case_decide.
  - cbn [length seq zip zip_with loc]. case_decide as Hl.
    + subst. rewrite decide_False by lia. by rewrite Nat.sub_diag.
    + rewrite IH. repeat case_decide; try lia; try done.
      replace (l - n)%nat with (S (l - S n)) by lia. done.
Qed.

End labelled.

Lemma loc_read_excel (sheet : list HIdata_error.Row) (l : nat) :
  HIdata_error.loc (HIdata_error.read_excel sheet) l = sheet !! l.
Proof.
  unfold HIdata_error.read_excel. rewrite loc_zip_seq.
  rewrite decide_False by lia. by rewrite Nat.sub_0_r.
Qed.

Lemma labels_read_excel (sheet : list HIdata_error.Row) :
  fst <$> HIdata_error.read_excel sheet = seq 0 (length sheet).
Proof. unfold HIdata_error.read_excel. apply fst_zip. by rewrite length_seq. Qed.

Lemma NoDup_labels_read_excel (sheet : list HIdata_error.Row) :
  NoDup (fst <$> HIdata_error.read_excel sheet).
Proof. rewrite labels_read_excel. apply NoDup_seq. Qed.

(** The rows that the script retains. *)
Lemma elem_of_data (sheet : list HIdata_error.Row) (l : nat) (r : HIdata_error.Row) :
  (l, r) ∈ HIdata_error.data (HIdata_error.script sheet)
  ↔ sheet !! l = Some r ∧ HIdata_error.mask r = true.
Proof.
  cbn [HIdata_error.script HIdata_error.data].
  rewrite list_elem_of_filter. cbn [snd]. rewrite <- loc_read_excel. split.
  - intros [Hm Hin]. split; [|done].
    apply elem_loc; [apply NoDup_labels_read_excel|done].
  - intros [Hloc Hm]. split; [done|]. by apply loc_Some_elem.
Qed.

Lemma loc_data (sheet : list HIdata_error.Row) (l : nat) :
  HIdata_error.loc (HIdata_error.data (HIdata_error.script sheet)) l
  = match sheet !! l with
    | Some r => if decide (HIdata_error.mask r = true) then Some r else None
    | None => None
    end.
Proof.
  cbn [HIdata_error.script HIdata_error.data].
  rewrite <- loc_read_excel.
  exact (loc_filter (λ p, HIdata_error.mask p.2 = true) (HIdata_error.read_excel sheet) l
           (NoDup_labels_read_excel sheet)).
Qed.

(** The clearness-ratio filter on finite values: with a zero divisor the
    quotient is an infinity or NaN, which is not both above 0 and at most
    1.5. *)
Lemma ratio_filter_Fin (dni dni_c : R) :
  np.gt (#dni / #dni_c) #0 && np.le (#dni / #dni_c) #1.5 = true
  ↔ (0 < dni / dni_c <= 1.5)%R.
Proof.
  destruct (decide (dni_c = 0%R)) as [->|Hc].
  - rewrite Rdiv_0_r. cbn [np.div]. rewrite decide_True by done.
    unfold np.inf_of_sign. repeat case_decide; cbn; split; try done; lra.
  - rewrite div_Fin by done. cbn. rewrite andb_true_iff, !bool_decide_eq_true. done.
Qed.

(** The mask on a row of finite values is the conjunction of claim C4. *)
Lemma mask_finite_row (dhi ghi dni dni_c t dl rh elev sza : R) :
  HIdata_error.mask (sheets.finite_row dhi ghi dni dni_c t dl rh elev sza) = true
  ↔ (sza < 72.5)%R
    ∧ (0 < ghi ∧ 0 < dhi)%R
    ∧ (0 < dni / dni_c <= 1.5)%R
    ∧ (-80 <= t <= 90)%R
    ∧ (0 < dl)%R.
Proof.
  unfold HIdata_error.mask. rewrite !andb_true_iff.
  unfold HIdata_error.condition_2. cbn [sheets.finite_row HIdata_error.DNI HIdata_error.Clearsky_DNI].
  rewrite ratio_filter_Fin.
  unfold HIdata_error.condition_0, HIdata_error.condition_1, HIdata_error.condition_3,
    HIdata_error.condition_4.
  cbn. rewrite !andb_true_iff, !bool_decide_eq_true. tauto.
Qed.

(** C4.  The script retains exactly the rows of the sheet on which the
    five conditions hold, in the order of the sheet and under their
    labels; on a row of finite values the five conditions are: solar
    zenith angle below 72.5, GHI and DHI above 0, DNI / Clearsky DNI above
    0 and at most 1.5, temperature from -80 to 90, DLW above 0.  Of the
    five rows of the scenario the second and the fourth are dropped (the
    labels 1 and 3), which leaves three rows. *)
Theorem retained_rows :
  (∀ (sheet : list HIdata_error.Row) (l : nat) (r : HIdata_error.Row),
     (l, r) ∈ HIdata_error.data (HIdata_error.script sheet)
     ↔ sheet !! l = Some r ∧ HIdata_error.mask r = true)
  ∧ (∀ sheet : list HIdata_error.Row,
       HIdata_error.data (HIdata_error.script sheet)
         `sublist_of` HIdata_error.read_excel sheet)
  ∧ (∀ dhi ghi dni dni_c t dl rh elev sza : R,
       HIdata_error.mask (sheets.finite_row dhi ghi dni dni_c t dl rh elev sza) = true
       ↔ (sza < 72.5)%R
         ∧ (0 < ghi ∧ 0 < dhi)%R
         ∧ (0 < dni / dni_c <= 1.5)%R
         ∧ (-80 <= t <= 90)%R
         ∧ (0 < dl)%R)
  ∧ fst <$> HIdata_error.data (HIdata_error.script sheets.scenario) = [0; 2; 4]%nat
  ∧ length (HIdata_error.data (HIdata_error.script sheets.scenario)) = 3%nat.
Proof.
  split; [apply elem_of_data|].
  split; [intros sheet; apply sublist_filter|].
  split; [apply mask_finite_row|].
  assert (Hkeep : HIdata_error.mask (sheets.finite_row 100 500 400 500 20 350 60 10 30) = true).
  { apply mask_finite_row. lra. }
  assert (Hghi : HIdata_error.mask (sheets.finite_row 50 0 400 500 20 350 60 10 30) ≠ true).
  { rewrite mask_finite_row. lra. }
  assert (Htemp : HIdata_error.mask (sheets.finite_row 100 500 400 500 95 350 60 10 30) ≠ true).
  { rewrite mask_finite_row. lra. }
  assert (Hdata : fst <$> HIdata_error.data (HIdata_error.script sheets.scenario)
                  = [0; 2; 4]%nat).
  { cbn [HIdata_error.script HIdata_error.data].
    unfold HIdata_error.read_excel, sheets.scenario.
    cbn [length seq zip_with].
    rewrite filter_cons_True by exact Hkeep.
    rewrite filter_cons_False by exact Hghi.
    rewrite filter_cons_True by exact Hkeep.
    rewrite filter_cons_False by exact Htemp.
    rewrite filter_cons_True by exact Hkeep.
    reflexivity. }
  split; [exact Hdata|].
  rewrite <- (length_fmap fst), Hdata. reflexivity.
Qed.

(** ** The single-station script: where the formulas are evaluated *)

Lemma loc_getitem (name : HIdata_error.Row → f64) (d : list (nat * HIdata_error.Row)) (l : nat) :
  HIdata_error.loc (HIdata_error.getitem name d) l = name <$> HIdata_error.loc d l.
Proof. exact (loc_fmap (λ _ r, name r) d l). Qed.

Lemma loc_reindex (d : list (nat * HIdata_error.Row)) (s : list (nat * f64)) (l : nat) :
  HIdata_error.loc (HIdata_error.reindex d s) l
  = (λ _, HIdata_error.at_label s l) <$> HIdata_error.loc d l.
Proof. exact (loc_fmap (λ l _, HIdata_error.at_label s l) d l). Qed.

Lemma loc_apply2 (f : f64 → f64 → f64) (s t : list (nat * f64)) (l : nat) :
  HIdata_error.loc (HIdata_error.apply2 f s t) l
  = (λ x, f x (HIdata_error.at_label t l)) <$> HIdata_error.loc s l.
Proof. exact (loc_fmap (λ l x, f x (HIdata_error.at_label t l)) s l). Qed.

Lemma loc_apply3 (f : f64 → f64 → f64 → f64) (s t u : list (nat * f64)) (l : nat) :
  HIdata_error.loc (HIdata_error.apply3 f s t u) l
  = (λ x, f x (HIdata_error.at_label t l) (HIdata_error.at_label u l))
      <$> HIdata_error.loc s l.
Proof.
  exact (loc_fmap (λ l x, f x (HIdata_error.at_label t l) (HIdata_error.at_label u l)) s l).
Qed.

Lemma loc_apply4 (f : f64 → f64 → f64 → f64 → f64) (s t u v : list (nat * f64)) (l : nat) :
  HIdata_error.loc (HIdata_error.apply4 f s t u v) l
  = (λ x, f x (HIdata_error.at_label t l) (HIdata_error.at_label u l)
            (HIdata_error.at_label v l))
      <$> HIdata_error.loc s l.
Proof.
  exact (loc_fmap (λ l x, f x (HIdata_error.at_label t l) (HIdata_error.at_label u l)
                            (HIdata_error.at_label v l)) s l).
Qed.

Lemma loc_getitem_read_excel (sheet : list HIdata_error.Row) (name : HIdata_error.Row → f64)
    (l : nat) (r : HIdata_error.Row) :
  sheet !! l = Some r →
  HIdata_error.loc (HIdata_error.getitem name (HIdata_error.read_excel sheet)) l
  = Some (name r).
Proof. intros Hl. by rewrite loc_getitem, loc_read_excel, Hl. Qed.

Lemma at_label_getitem (sheet : list HIdata_error.Row) (name : HIdata_error.Row → f64)
    (l : nat) (r : HIdata_error.Row) :
  sheet !! l = Some r →
  HIdata_error.at_label (HIdata_error.getitem name (HIdata_error.read_excel sheet)) l = name r.
Proof.
  intros Hl. unfold HIdata_error.at_label.
  by rewrite (loc_getitem_read_excel sheet name l r Hl).
Qed.

Lemma index_getitem (name : HIdata_error.Row → f64) (d : HIdata_error.DataFrame) :
  HIdata_error.index (HIdata_error.getitem name d) = fst <$> d.
Proof.
  unfold HIdata_error.index, HIdata_error.getitem.
  rewrite <- list_fmap_compose. reflexivity.
Qed.

Lemma index_reindex (d : HIdata_error.DataFrame) (s : HIdata_error.Series) :
  HIdata_error.index (HIdata_error.reindex d s) = fst <$> d.
Proof.
  unfold HIdata_error.index, HIdata_error.reindex.
  rewrite <- list_fmap_compose. reflexivity.
Qed.

Lemma index_apply2 (f : f64 → f64 → f64) (s t : list (nat * f64)) :
  HIdata_error.index (HIdata_error.apply2 f s t) = HIdata_error.index s.
Proof.
  unfold HIdata_error.index, HIdata_error.apply2.
  rewrite <- list_fmap_compose. reflexivity.
Qed.

Lemma index_apply3 (f : f64 → f64 → f64 → f64) (s t u : list (nat * f64)) :
  HIdata_error.index (HIdata_error.apply3 f s t u) = HIdata_error.index s.
Proof.
  unfold HIdata_error.index, HIdata_error.apply3.
  rewrite <- list_fmap_compose. reflexivity.
Qed.

Lemma index_apply4 (f : f64 → f64 → f64 → f64 → f64) (s t u v : list (nat * f64)) :
  HIdata_error.index (HIdata_error.apply4 f s t u v) = HIdata_error.index s.
Proof.
  unfold HIdata_error.index, HIdata_error.apply4.
  rewrite <- list_fmap_compose. reflexivity.
Qed.

(** The Series that the three formulas return have a value for every row
    of the sheet: the columns they are applied to were read before the
    rows were filtered. *)
Lemma returned_everywhere (sheet : list HIdata_error.Row) :
  let run := HIdata_error.script sheet in
  HIdata_error.index (HIdata_error.returned_CF run) = seq 0 (length sheet)
  ∧ HIdata_error.index (HIdata_error.returned_actual_epsilon run) = seq 0 (length sheet)
  ∧ HIdata_error.index (HIdata_error.returned_epsilon_clear_sky run) = seq 0 (length sheet).
Proof.
  cbn [HIdata_error.script HIdata_error.returned_CF HIdata_error.returned_actual_epsilon
       HIdata_error.returned_epsilon_clear_sky].
  rewrite index_apply4, index_apply3, index_apply2, !index_getitem, labels_read_excel.
  repeat split.
Qed.

Lemma returned_at (sheet : list HIdata_error.Row) (l : nat) (r : HIdata_error.Row) :
  sheet !! l = Some r →
  let run := HIdata_error.script sheet in
  HIdata_error.at_label (HIdata_error.returned_CF run) l
  = HIdata_error.calculate_cf (HIdata_error.DHI r) (HIdata_error.GHI r)
      (HIdata_error.DNI r) (HIdata_error.Clearsky_DNI r)
  ∧ HIdata_error.at_label (HIdata_error.returned_actual_epsilon run) l
    = HIdata_error.calculate_actual_epsilon (HIdata_error.temp r) (HIdata_error.dlw r)
  ∧ HIdata_error.at_label (HIdata_error.returned_epsilon_clear_sky run) l
    = HIdata_error.calculate_clear_sky_emissivity (HIdata_error.temp r)
        (HIdata_error.rh r) (HIdata_error.site_elev r).
Proof.
  intros Hl.
  cbn [HIdata_error.script HIdata_error.returned_CF HIdata_error.returned_actual_epsilon
       HIdata_error.returned_epsilon_clear_sky].
  unfold HIdata_error.at_label at 1 2 3.
  rewrite loc_apply4, loc_apply3, loc_apply2.
  rewrite !(loc_getitem_read_excel sheet _ l r Hl).
  rewrite !(at_label_getitem sheet _ l r Hl).
  repeat split.
Qed.

(** A retained row has a GHI and a clearsky DNI that are not zero. *)
Lemma mask_divisors (r : HIdata_error.Row) :
  HIdata_error.mask r = true →
  HIdata_error.GHI r ≠ #0 ∧ HIdata_error.Clearsky_DNI r ≠ #0.
Proof.
  unfold HIdata_error.mask. rewrite !andb_true_iff.
  intros ((((_ & H1) & H2) & _) & _). split.
  - intros Hz. unfold HIdata_error.condition_1 in H1. rewrite Hz in H1.
    apply andb_true_iff in H1 as [H1 _]. cbn in H1.
    apply bool_decide_eq_true in H1. lra.
  - intros Hz. unfold HIdata_error.condition_2 in H2. rewrite Hz in H2.
    apply andb_true_iff in H2 as [Hgt Hle].
    destruct (HIdata_error.DNI r) as [a| | |]; cbn in Hgt, Hle; try done.
    + rewrite decide_True in Hgt, Hle by done. unfold np.inf_of_sign in Hgt, Hle.
      repeat case_decide; cbn in Hgt, Hle; done.
    + rewrite decide_False in Hle by lra. done.
    + rewrite decide_False in Hgt by lra. done.
Qed.

(** ** The single-station script: the column assignments *)

(** An assignment to a table that has rows, or of a Series without
    values, leaves the rows as they are. *)
Lemma setitem_keep (fr : HIdata_error.Frame) (name : string) (s : HIdata_error.Series) :
  (HIdata_error.rows fr = [] → s = []) →
  HIdata_error.setitem fr name s
  = {| HIdata_error.rows := HIdata_error.rows fr;
       HIdata_error.added :=
         <[name := HIdata_error.reindex (HIdata_error.rows fr) s]> (HIdata_error.added fr) |}.
Proof.
  intros Hs. destruct fr as [rs ad]. cbn [HIdata_error.rows HIdata_error.added] in *.
  unfold HIdata_error.setitem, HIdata_error.ensure_valid_index.
  cbn [HIdata_error.rows HIdata_error.added].
  destruct rs as [|p rs]; [rewrite (Hs eq_refl)|]; reflexivity.
Qed.

(** The first assignment of the script, to the filtered table without
    added columns: a table without rows takes over the labels of the
    Series. *)
Lemma setitem_first (d : HIdata_error.DataFrame) (name : string) (s : HIdata_error.Series) :
  HIdata_error.setitem {| HIdata_error.rows := d; HIdata_error.added := ∅ |} name s
  = {| HIdata_error.rows :=
         match d with
         | [] => (λ p, (p.1, HIdata_error.nan_row)) <$> s
         | _ => d
         end;
       HIdata_error.added :=
         <[name := HIdata_error.reindex
                     match d with
                     | [] => (λ p, (p.1, HIdata_error.nan_row)) <$> s
                     | _ => d
                     end s]> ∅ |}.
Proof.
  unfold HIdata_error.setitem, HIdata_error.ensure_valid_index.
  cbn [HIdata_error.rows HIdata_error.added].
  destruct d as [|p d]; [|reflexivity].
  destruct s as [|q s]; [reflexivity|].
  cbn [HIdata_error.rows HIdata_error.added]. by rewrite fmap_empty.
Qed.

Lemma final_rows_nil (sheet : list HIdata_error.Row) :
  sheets.final_rows sheet = [] → sheet = [].
Proof.
  unfold sheets.final_rows.
  destruct (HIdata_error.data (HIdata_error.script sheet)) as [|p d]; [|done].
  destruct sheet as [|r sheet]; [done|]. discriminate.
Qed.

Lemma reindex_final_rows (sheet : list HIdata_error.Row) (s : HIdata_error.Series) :
  HIdata_error.reindex (sheets.final_rows sheet) s
  = HIdata_error.reindex (sheets.effective sheet) s.
Proof.
  unfold sheets.final_rows, sheets.effective.
  destruct (HIdata_error.data (HIdata_error.script sheet)) as [|p d]; [|done].
  unfold HIdata_error.reindex. rewrite <- list_fmap_compose. reflexivity.
Qed.

(** The table at the end of the script. *)
Lemma script_final (sheet : list HIdata_error.Row) :
  let run := HIdata_error.script sheet in
  let R := sheets.final_rows sheet in
  HIdata_error.final run
  = {| HIdata_error.rows := R;
       HIdata_error.added :=
         <["predicted_epsilon"%string :=
             HIdata_error.reindex R
               (HIdata_error.apply2 (λ cf e, HIdata_error.predict_epsilon_sky cf e #1)
                  (HIdata_error.reindex R (HIdata_error.returned_CF run))
                  (HIdata_error.reindex R (HIdata_error.returned_epsilon_clear_sky run)))]>
         (<["CF"%string := HIdata_error.reindex R (HIdata_error.returned_CF run)]>
         (<["epsilon_clear_sky"%string :=
              HIdata_error.reindex R (HIdata_error.returned_epsilon_clear_sky run)]>
         (<["actual_epsilon"%string :=
              HIdata_error.reindex R (HIdata_error.returned_actual_epsilon run)]> ∅))) |}.
Proof.
  intros run R.
  assert (HR : R = [] → sheet = []) by apply final_rows_nil.
  assert (Hfirst :
    match HIdata_error.data run with
    | [] => (λ p, (p.1, HIdata_error.nan_row)) <$> HIdata_error.returned_actual_epsilon run
    | _ => HIdata_error.data run
    end = R).
  { unfold R, sheets.final_rows. fold run.
    destruct (HIdata_error.data run) as [|p d]; [|done].
    unfold run. cbn [HIdata_error.script HIdata_error.returned_actual_epsilon].
    unfold HIdata_error.apply2, HIdata_error.getitem.
    rewrite <- !list_fmap_compose. reflexivity. }
  clearbody R. unfold run in *. clear run.
  cbn [HIdata_error.script HIdata_error.final HIdata_error.returned_actual_epsilon
       HIdata_error.returned_epsilon_clear_sky HIdata_error.returned_CF
       HIdata_error.data] in *.
  rewrite setitem_first, Hfirst.
  rewrite (setitem_keep (HIdata_error.Build_Frame _ _));
    cbn [HIdata_error.rows HIdata_error.added].
  2:{ intros HR'. by rewrite (HR HR'). }
  rewrite (setitem_keep (HIdata_error.Build_Frame _ _));
    cbn [HIdata_error.rows HIdata_error.added].
  2:{ intros HR'. by rewrite (HR HR'). }
  unfold HIdata_error.column. cbn [HIdata_error.added].
  rewrite lookup_insert_eq.
  rewrite lookup_insert_ne by done. rewrite lookup_insert_eq.
  cbn [default].
  rewrite (setitem_keep (HIdata_error.Build_Frame _ _));
    cbn [HIdata_error.rows HIdata_error.added].
  2:{ intros ->. reflexivity. }
  reflexivity.
Qed.

(** The columns that the script has added, as the table has them at the
    end. *)
Lemma stored_columns (sheet : list HIdata_error.Row) :
  let run := HIdata_error.script sheet in
  let E := sheets.effective sheet in
  HIdata_error.column (HIdata_error.final run) "actual_epsilon"
  = HIdata_error.reindex E (HIdata_error.returned_actual_epsilon run)
  ∧ HIdata_error.column (HIdata_error.final run) "epsilon_clear_sky"
    = HIdata_error.reindex E (HIdata_error.returned_epsilon_clear_sky run)
  ∧ HIdata_error.column (HIdata_error.final run) "CF"
    = HIdata_error.reindex E (HIdata_error.returned_CF run)
  ∧ HIdata_error.column (HIdata_error.final run) "predicted_epsilon"
    = HIdata_error.reindex E
        (HIdata_error.apply2 (λ cf e, HIdata_error.predict_epsilon_sky cf e #1)
           (HIdata_error.reindex E (HIdata_error.returned_CF run))
           (HIdata_error.reindex E (HIdata_error.returned_epsilon_clear_sky run))).
Proof.
  intros run E. unfold run, E.
  pose proof (script_final sheet) as Hfinal. cbv zeta in Hfinal.
  unfold HIdata_error.column. rewrite Hfinal. cbn [HIdata_error.added].
  rewrite !reindex_final_rows.
  do 3 (rewrite lookup_insert_ne by done). rewrite lookup_insert_eq.
  split; [reflexivity|]. clear Hfinal.
  do 2 (rewrite lookup_insert_ne by done). rewrite lookup_insert_eq.
  split; [reflexivity|].
  rewrite lookup_insert_ne by done. rewrite !lookup_insert_eq.
  split; reflexivity.
Qed.

Lemma labels_final (sheet : list HIdata_error.Row) :
  fst <$> HIdata_error.rows (HIdata_error.final (HIdata_error.script sheet))
  = fst <$> sheets.effective sheet.
Proof.
  pose proof (script_final sheet) as Hfinal. cbv zeta in Hfinal.
  rewrite Hfinal. cbn [HIdata_error.rows].
  unfold sheets.final_rows, sheets.effective.
  destruct (HIdata_error.data (HIdata_error.script sheet)) as [|p d]; [|done].
  rewrite <- list_fmap_compose. reflexivity.
Qed.

(** The rows on which the table stands are rows of the sheet, each under
    its own label. *)
Lemma loc_effective (sheet : list HIdata_error.Row) (l : nat) (r : HIdata_error.Row) :
  (l, r) ∈ sheets.effective sheet →
  HIdata_error.loc (sheets.effective sheet) l = Some r ∧ sheet !! l = Some r.
Proof.
  unfold sheets.effective.
  destruct (HIdata_error.data (HIdata_error.script sheet)) as [|p d] eqn:Hd.
  - intros Hin.
    pose proof (elem_loc _ l r (NoDup_labels_read_excel sheet) Hin) as Hloc.
    split; [exact Hloc|]. by rewrite <- loc_read_excel.
  - rewrite <- Hd. intros Hin. apply elem_of_data in Hin as [Hl Hm].
    split; [|exact Hl]. rewrite loc_data, Hl. by rewrite decide_True.
Qed.

Lemma at_label_reindex (d : HIdata_error.DataFrame) (s : HIdata_error.Series)
    (l : nat) (r : HIdata_error.Row) :
  HIdata_error.loc d l = Some r →
  HIdata_error.at_label (HIdata_error.reindex d s) l = HIdata_error.at_label s l.
Proof.
  intros Hl. unfold HIdata_error.at_label at 1. by rewrite loc_reindex, Hl.
Qed.

(** The predicted emissivity that the script computes at the label of a
    row of the table, before it stores it. *)
Lemma predicted_at (sheet : list HIdata_error.Row) (l : nat) (r : HIdata_error.Row) :
  (l, r) ∈ sheets.effective sheet →
  HIdata_error.at_label
    (HIdata_error.apply2 (λ cf e, HIdata_error.predict_epsilon_sky cf e #1)
       (HIdata_error.reindex (sheets.effective sheet)
          (HIdata_error.returned_CF (HIdata_error.script sheet)))
       (HIdata_error.reindex (sheets.effective sheet)
          (HIdata_error.returned_epsilon_clear_sky (HIdata_error.script sheet)))) l
  = HIdata_error.predict_epsilon_sky
      (HIdata_error.calculate_cf (HIdata_error.DHI r) (HIdata_error.GHI r)
         (HIdata_error.DNI r) (HIdata_error.Clearsky_DNI r))
      (HIdata_error.calculate_clear_sky_emissivity (HIdata_error.temp r)
         (HIdata_error.rh r) (HIdata_error.site_elev r))
      #1.
Proof.
  intros Hin. apply loc_effective in Hin as [Hloc Hl].
  pose proof (returned_at sheet l r Hl) as Hret. cbv zeta in Hret.
  destruct Hret as (Hcf & _ & Hclear).
  unfold HIdata_error.at_label at 1. rewrite loc_apply2, loc_reindex, Hloc.
  cbn [fmap option_fmap option_map default].
  by rewrite (at_label_reindex _ _ l r Hloc), Hcf, Hclear.
Qed.

(** What the four added columns hold at a row of the table: the formulas
    of the values that the sheet has under the label of the row. *)
Lemma stored_at (sheet : list HIdata_error.Row) (l : nat) (r : HIdata_error.Row) :
  (l, r) ∈ sheets.effective sheet →
  let final := HIdata_error.final (HIdata_error.script sheet) in
  HIdata_error.at_label (HIdata_error.column final "actual_epsilon") l
  = HIdata_error.calculate_actual_epsilon (HIdata_error.temp r) (HIdata_error.dlw r)
  ∧ HIdata_error.at_label (HIdata_error.column final "epsilon_clear_sky") l
    = HIdata_error.calculate_clear_sky_emissivity (HIdata_error.temp r)
        (HIdata_error.rh r) (HIdata_error.site_elev r)
  ∧ HIdata_error.at_label (HIdata_error.column final "CF") l
    = HIdata_error.calculate_cf (HIdata_error.DHI r) (HIdata_error.GHI r)
        (HIdata_error.DNI r) (HIdata_error.Clearsky_DNI r)
  ∧ HIdata_error.at_label (HIdata_error.column final "predicted_epsilon") l
    = HIdata_error.predict_epsilon_sky
        (HIdata_error.calculate_cf (HIdata_error.DHI r) (HIdata_error.GHI r)
           (HIdata_error.DNI r) (HIdata_error.Clearsky_DNI r))
        (HIdata_error.calculate_clear_sky_emissivity (HIdata_error.temp r)
           (HIdata_error.rh r) (HIdata_error.site_elev r))
        #1.
Proof.
  intros Hin final. unfold final.
  pose proof (stored_columns sheet) as Hcols. cbv zeta in Hcols.
  destruct Hcols as (-> & -> & -> & ->).
  pose proof (predicted_at sheet l r Hin) as Hpred.
  pose proof (loc_effective sheet l r Hin) as [Hloc Hl].
  pose proof (returned_at sheet l r Hl) as Hret. cbv zeta in Hret.
  destruct Hret as (Hcf & Hact & Hclear).
  rewrite !(at_label_reindex _ _ l r Hloc).
  by rewrite Hact, Hclear, Hcf, Hpred.
Qed.

(** The cloud fraction of the row with a DHI of 50 and a GHI of zero. *)
Lemma calculate_cf_zero_GHI :
  HIdata_error.calculate_cf #50 #0 #400 #500 = PInf.
Proof.
  unfold HIdata_error.calculate_cf.
  rewrite (div_Fin 400 500) by lra.
  cbn [np.div]. rewrite decide_True by done.
  unfold np.inf_of_sign. rewrite decide_True by lra.
  cbn [np.power].
  rewrite (decide_True (P := (0 < HIdata_error.a2)%R)) by (unfold HIdata_error.a2; lra).
  rewrite (decide_True (P := (0 < 400 / 500)%R)) by lra.
  cbn [np.mul]. unfold np.inf_of_sign.
  rewrite (decide_True (P := (0 < HIdata_error.a1)%R)) by (unfold HIdata_error.a1; lra).
  reflexivity.
Qed.

(** C1.  The code goes against the claim.  The three formulas are called
    on the columns that lines 52 to 59 read before the filter of line 68,
    so they are evaluated at every row of the sheet.  On the sheet of two
    rows whose second row has a GHI of zero, that row is removed by the
    filter and the cloud fraction is computed at it all the same: the DHI
    of 50 is divided by the GHI of zero and the formula returns an
    infinity.  On the sheet that has this row alone the filter removes
    every row, the first column assignment gives the table the label of
    the removed row again, and the table at the end holds the infinity in
    its column CF. *)
Theorem cf_computed_at_removed_rows :
  (1%nat ∈ HIdata_error.index (HIdata_error.returned_CF (HIdata_error.script sheets.zero_GHI))
   ∧ (1%nat ∉ (fst <$> HIdata_error.data (HIdata_error.script sheets.zero_GHI)))
   ∧ HIdata_error.at_label
       (HIdata_error.returned_CF (HIdata_error.script sheets.zero_GHI)) 1 = PInf
   ∧ ¬ sheets.evaluated_on_retained_rows_only sheets.zero_GHI)
  ∧ (HIdata_error.data (HIdata_error.script sheets.only_zero_GHI) = []
     ∧ fst <$> HIdata_error.rows (HIdata_error.final (HIdata_error.script sheets.only_zero_GHI))
       = [0%nat]
     ∧ HIdata_error.at_label
         (HIdata_error.column
            (HIdata_error.final (HIdata_error.script sheets.only_zero_GHI)) "CF") 0
       = PInf).
Proof.
  assert (Hkeep : HIdata_error.mask (sheets.finite_row 100 500 400 500 20 350 60 10 30) = true).
  { apply mask_finite_row. lra. }
  assert (Hdrop : HIdata_error.mask (sheets.finite_row 50 0 400 500 20 350 60 10 30) ≠ true).
  { rewrite mask_finite_row. lra. }
  split.
  - set (run := HIdata_error.script sheets.zero_GHI).
    assert (Hindex : 1%nat ∈ HIdata_error.index (HIdata_error.returned_CF run)).
    { pose proof (returned_everywhere sheets.zero_GHI) as He. cbv zeta in He.
      destruct He as [He _]. unfold run. rewrite He. cbn.
      apply elem_of_cons. right. apply elem_of_cons. by left. }
    assert (Hdata : fst <$> HIdata_error.data run = [0%nat]).
    { unfold run. cbn [HIdata_error.script HIdata_error.data].
      unfold HIdata_error.read_excel, sheets.zero_GHI.
      cbn [length seq zip_with].
      rewrite filter_cons_True by exact Hkeep.
      rewrite filter_cons_False by exact Hdrop.
      reflexivity. }
    assert (Hout : 1%nat ∉ (fst <$> HIdata_error.data run)).
    { rewrite Hdata. intros Hin. apply elem_of_cons in Hin as [Hin|Hin]; [done|].
      by apply elem_of_nil in Hin. }
    split; [exact Hindex|]. split; [exact Hout|]. split.
    + pose proof (returned_at sheets.zero_GHI 1
                    (sheets.finite_row 50 0 400 500 20 350 60 10 30) eq_refl) as Hat.
      cbv zeta in Hat. destruct Hat as [Hat _]. unfold run. rewrite Hat.
      exact calculate_cf_zero_GHI.
    + intros Hclaim.
      destruct (Hclaim 1%nat (sheets.finite_row 50 0 400 500 20 350 60 10 30) eq_refl Hindex)
        as [Hin _].
      exact (Hout Hin).
  - set (run := HIdata_error.script sheets.only_zero_GHI).
    assert (Hdata : HIdata_error.data run = []).
    { unfold run. cbn [HIdata_error.script HIdata_error.data].
      unfold HIdata_error.read_excel, sheets.only_zero_GHI.
      cbn [length seq zip_with].
      rewrite filter_cons_False by exact Hdrop.
      reflexivity. }
    assert (Heff : sheets.effective sheets.only_zero_GHI
                   = [(0%nat, sheets.finite_row 50 0 400 500 20 350 60 10 30)]).
    { unfold sheets.effective. fold run. rewrite Hdata. reflexivity. }
    split; [exact Hdata|]. split.
    + unfold run. rewrite labels_final, Heff. reflexivity.
    + pose proof (stored_at sheets.only_zero_GHI 0
                    (sheets.finite_row 50 0 400 500 20 350 60 10 30)) as Hat.
      rewrite Heff in Hat. specialize (Hat ltac:(apply list_elem_of_here)).
      cbv zeta in Hat. destruct Hat as (_ & _ & Hat & _).
      unfold run. rewrite Hat. exact calculate_cf_zero_GHI.
Qed.

(** * Further properties of the formula library *)

Lemma power_Fin_0 (y : R) : (0 < y)%R → #0 ** y = #0.
Proof.
  intros Hy. cbn. rewrite decide_False by lra.
  rewrite decide_True by done. by rewrite decide_True.
Qed.

Lemma power_Fin_neg (a y : R) : (a < 0)%R → #a ** y = NaN.
Proof.
  intros Ha. cbn. rewrite decide_False by lra. by rewrite decide_False by lra.
Qed.

Lemma Rpower_unit_interval (c y : R) :
  (0 < c <= 1)%R → (0 < y)%R → (0 < Rpower c y <= 1)%R.
Proof.
  intros [Hc0 Hc1] Hy. unfold Rpower. split; [apply exp_pos|].
  rewrite <- exp_0. destruct (Rle_lt_or_eq_dec _ _ Hc1) as [Hlt| ->].
  - left. apply exp_increasing.
    assert (ln c < 0)%R by (rewrite <- ln_1; by apply ln_increasing).
    nra.
  - rewrite ln_1, Rmult_0_r. lra.
Qed.

(** A fractional power of a cloud fraction between 0 and 1 is a real
    number between 0 and 1. *)
Lemma power_unit_interval (c y : R) :
  (0 <= c <= 1)%R → (0 < y)%R → ∃ p : R, #c ** y = #p ∧ (0 <= p <= 1)%R.
Proof.
  intros [Hc0 Hc1] Hy. destruct (Rle_lt_or_eq_dec _ _ Hc0) as [Hpos| <-].
  - exists (Rpower c y). rewrite power_Fin by done. split; [done|].
    pose proof (Rpower_unit_interval c y (conj Hpos Hc1) Hy). lra.
  - exists 0%R. rewrite power_Fin_0 by done. split; [done|lra].
Qed.

Lemma pow4_unit_interval (c : R) : (0 <= c <= 1)%R → (0 <= c ^ 4 <= 1)%R.
Proof.
  intros Hc. replace (c ^ 4)%R with ((c * c) * (c * c))%R by ring.
  assert (Hd : (0 <= c * c <= 1)%R) by nra.
  set (d := (c * c)%R) in *. nra.
Qed.

Lemma sigma_pos : (0 < models.sigma)%R.
Proof. unfold models.sigma. lra. Qed.

(** X1.  At a cloud fraction of 0 and a finite air temperature, maykut_church,
    suguita_brutsaert, konzelmann and crawford_duchon return the clear-sky
    flux unchanged, whatever it is, and so does the dispatcher under these
    four names. *)
Theorem zero_cloud_other_models (LW_clear : f64) (Ta : R) :
  models.maykut_church LW_clear #0 = LW_clear
  ∧ models.suguita_brutsaert LW_clear #0 = LW_clear
  ∧ models.konzelmann LW_clear #0 #Ta = LW_clear
  ∧ models.crawford_duchon LW_clear #0 #Ta = LW_clear
  ∧ ∀ (ea : f64) (model : string),
      model ∈ ["maykut_church"; "suguita_brutsaert"; "konzelmann"; "crawford_duchon"]%string →
      models.compute_cloudy_LW #Ta ea #0 (Some model)
      = inr (models.brutsaert_clear_sky #Ta ea).
Proof.
  assert (Hm : ∀ x : f64, models.maykut_church x #0 = x).
  { intros x. unfold models.maykut_church. rewrite power_Fin_0 by lra.
    destruct x; cbn; unfold np.inf_of_sign; f64_cases. }
  assert (Hs : ∀ x : f64, models.suguita_brutsaert x #0 = x).
  { intros x. unfold models.suguita_brutsaert. rewrite power_Fin_0 by lra.
    destruct x; cbn; unfold np.inf_of_sign; f64_cases. }
  assert (Hk : ∀ x : f64, models.konzelmann x #0 #Ta = x).
  { intros x. unfold models.konzelmann.
    rewrite !pow_int_Fin, sub_Fin, !mul_Fin.
    destruct x; cbn; unfold np.inf_of_sign; f64_cases. }
  assert (Hc : ∀ x : f64, models.crawford_duchon x #0 #Ta = x).
  { intros x. unfold models.crawford_duchon.
    rewrite !pow_int_Fin, sub_Fin, !mul_Fin.
    destruct x; cbn; unfold np.inf_of_sign; f64_cases. }
  split; [apply Hm|]. split; [apply Hs|]. split; [apply Hk|]. split; [apply Hc|].
  intros ea model Hin.
  repeat (apply elem_of_cons in Hin as [->|Hin]); [..|by apply elem_of_nil in Hin].
  - rewrite dispatch_maykut_church. cbn [map2 scalar_elementwise]. by rewrite Hm.
  - rewrite dispatch_suguita_brutsaert. cbn [map2 scalar_elementwise]. by rewrite Hs.
  - rewrite dispatch_konzelmann. cbn [map2 map3 scalar_elementwise]. by rewrite Hk.
  - rewrite dispatch_crawford_duchon. cbn [map2 map3 scalar_elementwise]. by rewrite Hc.
Qed.

Lemma zero_cloud_other_models_witness :
  models.compute_cloudy_LW #300 #10 #0 (Some "konzelmann"%string)
  = inr (models.brutsaert_clear_sky #300 #10).
Proof.
  apply (zero_cloud_other_models #0 300).
  apply elem_of_cons. right. apply elem_of_cons. right. apply elem_of_cons. by left.
Defined.

Lemma blackbody_nonzero (Ta : R) : Ta ≠ 0%R → (models.sigma * Ta ^ 4 ≠ 0)%R.
Proof.
  intros HTa. apply Rmult_integral_contrapositive_currified.
  - pose proof sigma_pos. lra.
  - by apply pow_nonzero.
Qed.

(** X2.  Under a full cloud cover (cloud fraction 1) crawford_duchon
    returns the black-body flux sigma * Ta^4 and konzelmann 0.952 times
    it, whatever the finite clear-sky flux; the emissivities that
    [compute_emissivity] derives from them at a temperature that is not
    zero are 1 and 0.952. *)
Theorem overcast_blackbody (LW_clear Ta : R) :
  models.crawford_duchon #LW_clear #1 #Ta = #(models.sigma * Ta ^ 4)
  ∧ models.konzelmann #LW_clear #1 #Ta = #(0.952 * (models.sigma * Ta ^ 4))
  ∧ (Ta ≠ 0%R →
     models.compute_emissivity (models.crawford_duchon #LW_clear #1 #Ta) #Ta = #1
     ∧ models.compute_emissivity (models.konzelmann #LW_clear #1 #Ta) #Ta = #0.952).
Proof.
  assert (Hc : models.crawford_duchon #LW_clear #1 #Ta = #(models.sigma * Ta ^ 4)).
  { unfold models.crawford_duchon.
    rewrite !pow_int_Fin, sub_Fin, !mul_Fin, add_Fin. f_equal. lra. }
  assert (Hk : models.konzelmann #LW_clear #1 #Ta = #(0.952 * (models.sigma * Ta ^ 4))).
  { unfold models.konzelmann.
    rewrite !pow_int_Fin, sub_Fin, !mul_Fin, add_Fin. f_equal. lra. }
  split; [exact Hc|]. split; [exact Hk|]. intros HTa.
  pose proof (blackbody_nonzero Ta HTa) as Hbb.
  rewrite Hc, Hk. unfold models.compute_emissivity.
  rewrite !pow_int_Fin, !mul_Fin, !div_Fin by done.
  pose proof sigma_pos as Hs.
  split; f_equal; field; (split; [exact HTa|lra]).
Qed.

Lemma overcast_blackbody_witness :
  models.compute_emissivity (models.crawford_duchon #350 #1 #290) #290 = #1.
Proof.
  apply (overcast_blackbody 350 290). lra.
Defined.

(** X3.  For a clear-sky flux that is not negative and a cloud fraction
    between 0 and 1, the four multiplicative corrections keep the flux
    between fixed multiples of the clear-sky flux: maykut_church between
    1 and 1.22 times it, jacobs between 1 and 1.26, suguita_brutsaert
    between 1 and 1.0496, lhomme between 1.03 and 1.37. *)
Theorem multiplicative_corrections_bounds (LW_clear c : R) :
  (0 <= LW_clear)%R → (0 <= c <= 1)%R →
  (∃ r : R, models.maykut_church #LW_clear #c = #r
            ∧ (LW_clear <= r <= 1.22 * LW_clear)%R)
  ∧ (∃ r : R, models.jacobs #LW_clear #c = #r
              ∧ (LW_clear <= r <= 1.26 * LW_clear)%R)
  ∧ (∃ r : R, models.suguita_brutsaert #LW_clear #c = #r
              ∧ (LW_clear <= r <= 1.0496 * LW_clear)%R)
  ∧ (∃ r : R, models.lhomme #LW_clear #c = #r
              ∧ (1.03 * LW_clear <= r <= 1.37 * LW_clear)%R).
Proof.
  intros HLW Hc. repeat split.
  - destruct (power_unit_interval c 2.75 Hc ltac:(lra)) as (p & Hp & Hp01).
    unfold models.maykut_church. rewrite Hp, !mul_Fin, add_Fin, mul_Fin.
    eexists. split; [reflexivity|]. nra.
  - unfold models.jacobs. rewrite !mul_Fin, add_Fin, mul_Fin.
    eexists. split; [reflexivity|]. nra.
  - destruct (power_unit_interval c 2.45 Hc ltac:(lra)) as (p & Hp & Hp01).
    unfold models.suguita_brutsaert. rewrite Hp, !mul_Fin, add_Fin, mul_Fin.
    eexists. split; [reflexivity|]. nra.
  - unfold models.lhomme. rewrite !mul_Fin, add_Fin, mul_Fin.
    eexists. split; [reflexivity|]. nra.
Qed.

Lemma multiplicative_corrections_bounds_witness :
  ∃ r : R, models.maykut_church #350 #0.5 = #r ∧ (350 <= r <= 1.22 * 350)%R.
Proof.
  apply (multiplicative_corrections_bounds 350 0.5); lra.
Defined.

(** X4.  For a cloud fraction between 0 and 1, crawford_duchon returns a
    flux between the clear-sky flux and the black-body flux sigma * Ta^4,
    konzelmann one between the clear-sky flux and 0.952 times the
    black-body flux, and [predict_epsilon_sky] an emissivity between the
    clear-sky emissivity and the emissivity of the clouds. *)
Theorem blends_stay_between (LW_clear c Ta : R) :
  (0 <= c <= 1)%R →
  (∃ r : R, models.crawford_duchon #LW_clear #c #Ta = #r
            ∧ (Rmin LW_clear (models.sigma * Ta ^ 4) <= r
               <= Rmax LW_clear (models.sigma * Ta ^ 4))%R)
  ∧ (∃ r : R, models.konzelmann #LW_clear #c #Ta = #r
              ∧ (Rmin LW_clear (0.952 * (models.sigma * Ta ^ 4)) <= r
                 <= Rmax LW_clear (0.952 * (models.sigma * Ta ^ 4)))%R)
  ∧ (∀ epsilon_clear_sky epsilon_clouds : R,
       ∃ r : R,
         HIdata_error.predict_epsilon_sky #c #epsilon_clear_sky #epsilon_clouds = #r
         ∧ (Rmin epsilon_clear_sky epsilon_clouds <= r
            <= Rmax epsilon_clear_sky epsilon_clouds)%R).
Proof.
  intros Hc.
  assert (Hblend : ∀ w x y : R, (0 <= w <= 1)%R →
            (Rmin x y <= x * (1 - w) + w * y <= Rmax x y)%R).
  { intros w x y Hw. unfold Rmin, Rmax. destruct (Rle_dec x y); nra. }
  repeat split.
  - unfold models.crawford_duchon.
    rewrite !pow_int_Fin, sub_Fin, !mul_Fin, add_Fin.
    eexists. split; [reflexivity|].
    rewrite Rmult_assoc. apply Hblend, Hc.
  - unfold models.konzelmann.
    rewrite !pow_int_Fin, sub_Fin, !mul_Fin, add_Fin.
    eexists. split; [reflexivity|].
    pose proof (Hblend (c ^ 4)%R LW_clear (0.952 * (models.sigma * Ta ^ 4))%R
                  (pow4_unit_interval c Hc)) as Hb.
    replace (0.952 * c ^ 4 * models.sigma * Ta ^ 4)%R
      with (c ^ 4 * (0.952 * (models.sigma * Ta ^ 4)))%R by ring.
    exact Hb.
  - intros e1 e2. unfold HIdata_error.predict_epsilon_sky.
    rewrite sub_Fin, !mul_Fin, add_Fin.
    eexists. split; [reflexivity|].
    replace ((1 - c) * e1)%R with (e1 * (1 - c))%R by ring. apply Hblend, Hc.
Qed.

Lemma blends_stay_between_witness :
  ∃ r : R, HIdata_error.predict_epsilon_sky #0.3 #0.8 #1 = #r
           ∧ (Rmin 0.8 1 <= r <= Rmax 0.8 1)%R.
Proof.
  apply (blends_stay_between 350 0.3 290); lra.
Defined.

Lemma mul_NaN_r (x : f64) : x * NaN = NaN.
Proof. by destruct x. Qed.

Lemma add_NaN_r (x : f64) : x + NaN = NaN.
Proof. by destruct x. Qed.

(** X5.  The cloud fraction taken from a clear-sky fraction is not
    clipped: for a clear-sky fraction above 1 it is the negative number
    1 - clr_pct.  On a negative cloud fraction maykut_church and
    suguita_brutsaert return NaN for every clear-sky flux, because they
    raise the cloud fraction to a fractional power, while jacobs returns
    the finite flux LW_clear * (1 + 0.26 * c). *)
Theorem unclipped_clear_fraction (ghi_m ghi_c LW_clear : f64) (clr_pct : R) :
  (1 < clr_pct)%R →
  let c := models.calculate_cloud_fraction ghi_m ghi_c (Some #clr_pct) in
  c = #(1 - clr_pct)
  ∧ models.maykut_church LW_clear c = NaN
  ∧ models.suguita_brutsaert LW_clear c = NaN
  ∧ ∀ LW : R, models.jacobs #LW c = #(LW * (1 + 0.26 * (1 - clr_pct))).
Proof.
  intros Hclr c.
  assert (Hc : c = #(1 - clr_pct)) by reflexivity.
  rewrite Hc. split; [done|].
  unfold models.maykut_church, models.suguita_brutsaert, models.jacobs.
  rewrite !power_Fin_neg by lra.
  rewrite ?mul_NaN_r, ?add_NaN_r, ?mul_NaN_r. repeat split.
Qed.

Lemma unclipped_clear_fraction_witness :
  models.maykut_church #350
    (models.calculate_cloud_fraction #400 #800 (Some #1.5)) = NaN.
Proof.
  apply (unclipped_clear_fraction #400 #800 #350 1.5). lra.
Defined.

(** X6.  For an air temperature and a vapor pressure above zero the
    Brutsaert clear-sky flux is the positive real number
    1.24 * (ea/Ta)^(1/7) * sigma * Ta^4, and the emissivity that
    [compute_emissivity] derives from it is 1.24 * (ea/Ta)^(1/7). *)
Theorem brutsaert_positive_inputs (Ta ea : R) :
  (0 < Ta)%R → (0 < ea)%R →
  models.brutsaert_clear_sky #Ta #ea
  = #(1.24 * Rpower (ea / Ta) (1 / 7) * models.sigma * Ta ^ 4)
  ∧ (0 < 1.24 * Rpower (ea / Ta) (1 / 7) * models.sigma * Ta ^ 4)%R
  ∧ models.compute_emissivity (models.brutsaert_clear_sky #Ta #ea) #Ta
    = #(1.24 * Rpower (ea / Ta) (1 / 7)).
Proof.
  intros HTa Hea.
  assert (Hq : (0 < ea / Ta)%R) by (apply Rdiv_lt_0_compat; lra).
  assert (Hb : models.brutsaert_clear_sky #Ta #ea
               = #(1.24 * Rpower (ea / Ta) (1 / 7) * models.sigma * Ta ^ 4)).
  { unfold models.brutsaert_clear_sky.
    rewrite div_Fin by lra. rewrite power_Fin by done.
    by rewrite pow_int_Fin, !mul_Fin. }
  pose proof sigma_pos as Hs.
  assert (Hp : (0 < Rpower (ea / Ta) (1 / 7))%R) by apply exp_pos.
  assert (HT4 : (0 < Ta ^ 4)%R) by (apply pow_lt; lra).
  split; [exact Hb|]. split.
  - apply Rmult_lt_0_compat; [apply Rmult_lt_0_compat; [lra|exact Hs]|exact HT4].
  - rewrite Hb. unfold models.compute_emissivity.
    rewrite pow_int_Fin, mul_Fin, div_Fin by nra.
    f_equal. field. split; lra.
Qed.

Lemma brutsaert_positive_inputs_witness :
  models.compute_emissivity (models.brutsaert_clear_sky #300 #10) #300
  = #(1.24 * Rpower (10 / 300) (1 / 7)).
Proof.
  apply (brutsaert_positive_inputs 300 10); lra.
Defined.

(** X7.  The Brutsaert formula outside its domain raises nothing: with a
    vapor pressure and a temperature of opposite signs it returns NaN,
    with a vapor pressure of zero at a positive temperature it returns a
    flux of zero, with a temperature of zero and a positive vapor
    pressure it returns NaN (an infinite emissivity times a zero
    black-body flux), and with both negative it returns a positive finite
    flux. *)
Theorem brutsaert_outside_domain (Ta ea : R) :
  ((ea / Ta < 0)%R → Ta ≠ 0%R → models.brutsaert_clear_sky #Ta #ea = NaN)
  ∧ ((0 < Ta)%R → models.brutsaert_clear_sky #Ta #0 = #0)
  ∧ ((0 < ea)%R → models.brutsaert_clear_sky #0 #ea = NaN)
  ∧ ((Ta < 0)%R → (ea < 0)%R →
     ∃ r : R, models.brutsaert_clear_sky #Ta #ea = #r ∧ (0 < r)%R).
Proof.
  pose proof sigma_pos as Hs.
  split; [|split; [|split]].
  - intros Hq HTa. unfold models.brutsaert_clear_sky.
    rewrite div_Fin by done. rewrite power_Fin_neg by done. reflexivity.
  - intros HTa. unfold models.brutsaert_clear_sky.
    rewrite div_Fin by lra.
    replace (0 / Ta)%R with 0%R by (unfold Rdiv; ring).
    rewrite power_Fin_0 by lra.
    rewrite pow_int_Fin, !mul_Fin. f_equal. ring.
  - intros Hea. unfold models.brutsaert_clear_sky.
    assert (H1 : #ea / #0 = PInf).
    { cbn. rewrite decide_True by done. unfold np.inf_of_sign. by rewrite decide_True. }
    assert (H2 : PInf ** (1 / 7) = PInf).
    { cbn. by rewrite decide_True by lra. }
    assert (H3 : ∀ k : R, (0 < k)%R → #k * PInf = PInf ∧ PInf * #k = PInf).
    { intros k Hk. cbn. unfold np.inf_of_sign. by rewrite decide_True. }
    assert (H4 : PInf * #(0 ^ 4) = NaN).
    { cbn [np.mul]. unfold np.inf_of_sign.
      replace (0 ^ 4)%R with 0%R by ring.
      rewrite decide_False by lra. by rewrite decide_False by lra. }
    rewrite H1, H2, (proj1 (H3 1.24%R ltac:(lra))), (proj2 (H3 _ Hs)), pow_int_Fin.
    exact H4.
  - intros HTa Hea.
    assert (Hq : (0 < ea / Ta)%R).
    { replace (ea / Ta)%R with ((- ea) / (- Ta))%R by (field; lra).
      apply Rdiv_lt_0_compat; lra. }
    unfold models.brutsaert_clear_sky.
    rewrite div_Fin by lra. rewrite power_Fin by done.
    rewrite pow_int_Fin, !mul_Fin. eexists. split; [reflexivity|].
    assert (Hp : (0 < Rpower (ea / Ta) (1 / 7))%R) by apply exp_pos.
    assert (HT4 : (0 < Ta ^ 4)%R).
    { replace (Ta ^ 4)%R with ((Ta * Ta) * (Ta * Ta))%R by ring.
      assert (0 < Ta * Ta)%R by nra. by apply Rmult_lt_0_compat. }
    apply Rmult_lt_0_compat; [apply Rmult_lt_0_compat; [lra|exact Hs]|exact HT4].
Qed.

Lemma brutsaert_outside_domain_witness :
  models.brutsaert_clear_sky #300 #(-5) = NaN
  ∧ models.brutsaert_clear_sky #300 #0 = #0
  ∧ models.brutsaert_clear_sky #0 #10 = NaN
  ∧ ∃ r : R, models.brutsaert_clear_sky #(-300) #(-10) = #r ∧ (0 < r)%R.
Proof.
  split; [|split; [|split]].
  - apply (brutsaert_outside_domain 300 (-5)); lra.
  - apply (brutsaert_outside_domain 300 0); lra.
  - apply (brutsaert_outside_domain 0 10); lra.
  - apply (brutsaert_outside_domain (-300) (-10)); lra.
Defined.

(** X8.  Emissivity and flux are inverse to each other through the
    Stefan-Boltzmann law: at a temperature that is not absolute zero,
    the emissivity computed from the flux eps * sigma * T^4 is eps, and
    the emissivity computed from a flux, times sigma * T^4, is that flux;
    this holds for [compute_emissivity] on Kelvin and for
    [calculate_actual_epsilon] on Celsius. *)
Theorem emissivity_round_trip (eps LW Ta temp : R) :
  Ta ≠ 0%R → (temp + 273.15 ≠ 0)%R →
  models.compute_emissivity (#eps * (#models.sigma * #Ta ^ 4)) #Ta = #eps
  ∧ models.compute_emissivity #LW #Ta * (#models.sigma * #Ta ^ 4) = #LW
  ∧ HIdata_error.calculate_actual_epsilon #temp
      (#eps * (#HIdata_error.sigma * (#temp + #273.15) ^ 4)) = #eps
  ∧ HIdata_error.calculate_actual_epsilon #temp #LW
    * (#HIdata_error.sigma * (#temp + #273.15) ^ 4) = #LW.
Proof.
  intros HTa Htemp.
  pose proof (blackbody_nonzero Ta HTa) as Hbb.
  pose proof (blackbody_nonzero (temp + 273.15) Htemp) as Hbb'.
  pose proof sigma_pos as Hs.
  unfold models.compute_emissivity, HIdata_error.calculate_actual_epsilon,
    HIdata_error.sigma.
  change 5.67e-8%R with models.sigma.
  rewrite !add_Fin, !pow_int_Fin, !mul_Fin, !div_Fin, !mul_Fin by done.
  repeat split; f_equal; field; (split; [assumption|lra]).
Qed.

Lemma emissivity_round_trip_witness :
  models.compute_emissivity (#0.8 * (#models.sigma * #290 ^ 4)) #290 = #0.8.
Proof.
  apply (emissivity_round_trip 0.8 350 290 20); lra.
Defined.

(** * Further properties of the cloud fraction and of the error metrics *)

Lemma clip_unit_bounds (a : R) : (0 <= Rmin (Rmax a 0) 1 <= 1)%R.
Proof. unfold Rmin, Rmax. repeat destruct (Rle_dec _ _); lra. Qed.

(** X9.  The cloud fraction computed from the GHI ratio is NaN or a
    number between 0 and 1, for all inputs, infinite ones included.  On a
    clear-sky GHI of zero nothing is raised: the cloud fraction is 0 for a
    positive measured GHI, 1 for a negative one and NaN for a measured GHI
    of zero. *)
Theorem cloud_fraction_from_ratio_range (ghi_m ghi_c : f64) :
  (models.calculate_cloud_fraction ghi_m ghi_c None = NaN
   ∨ ∃ r : R, models.calculate_cloud_fraction ghi_m ghi_c None = #r ∧ (0 <= r <= 1)%R)
  ∧ ∀ m : R,
      ((0 < m)%R → models.calculate_cloud_fraction #m #0 None = #0)
      ∧ ((m < 0)%R → models.calculate_cloud_fraction #m #0 None = #1)
      ∧ models.calculate_cloud_fraction #0 #0 None = NaN.
Proof.
  split.
  - unfold models.calculate_cloud_fraction. cbn [map1 map2 scalar_elementwise].
    destruct (#1 - ghi_m / ghi_c) as [a| | |] eqn:Hq; cbn [np.clip].
    + right. eexists. split; [reflexivity|apply clip_unit_bounds].
    + right. exists 1%R. split; [reflexivity|lra].
    + right. exists 0%R. split; [reflexivity|lra].
    + by left.
  - intros m. unfold models.calculate_cloud_fraction.
    cbn [map1 map2 scalar_elementwise np.div].
    rewrite !decide_True by done. unfold np.inf_of_sign. repeat split.
    + intros Hm. by rewrite decide_True.
    + intros Hm. rewrite decide_False by lra. by rewrite decide_True.
    + rewrite decide_False by lra. by rewrite decide_False by lra.
Qed.

Lemma cloud_fraction_from_ratio_range_witness :
  models.calculate_cloud_fraction #400 #0 None = #0
  ∧ models.calculate_cloud_fraction #(-400) #0 None = #1.
Proof.
  split.
  - apply (cloud_fraction_from_ratio_range #0 #0). lra.
  - apply (cloud_fraction_from_ratio_range #0 #0). lra.
Defined.

Lemma foldr_differences_self (xs : list R) :
  foldr Rplus 0%R (zip_with Rminus xs xs) = 0%R
  ∧ foldr Rplus 0%R ((λ e, (e ^ 2)%R) <$> zip_with Rminus xs xs) = 0%R.
Proof.
  induction xs as [|x xs [IH1 IH2]]; [done|].
  cbn [zip_with foldr fmap list_fmap]. rewrite IH1, IH2. split; ring.
Qed.

(** The statistics of two finite columns of equal length that are not
    empty. *)
Lemma statistics_Fin_nonempty (predicted actual : list R) :
  length predicted = length actual →
  actual ≠ [] →
  np.mean (zip_with np.sub (Fin <$> predicted) (Fin <$> actual))
  = #(metrics_spec.bias predicted actual)
  ∧ np.sqrt (np.mean ((λ e, e ^ 2) <$> zip_with np.sub (Fin <$> predicted) (Fin <$> actual)))
    = #(metrics_spec.rmse predicted actual)
  ∧ np.mean (Fin <$> actual) = #(metrics_spec.mean actual).
Proof.
  intros Hlen Hactual.
  assert (Herr : zip_with Rminus predicted actual ≠ []).
  { destruct predicted, actual; cbn in *; done. }
  rewrite zip_with_sub_Fin, square_Fin.
  rewrite !mean_Fin; try assumption.
  - rewrite sqrt_Fin by apply mean_squares_nonneg. done.
  - destruct (zip_with Rminus predicted actual); done.
Qed.

(** X10.  A finite column compared with itself has errors of zero: for a
    column whose mean is not zero, [calculate_errors] returns 0 for the
    bias, the RMSE and the two relative errors. *)
Theorem calculate_errors_self (x : list R) :
  metrics_spec.mean x ≠ 0%R →
  HIdata_error.calculate_errors (Fin <$> x) (Fin <$> x) = (#0, #0, #0, #0).
Proof.
  intros Hmean.
  assert (Hx : x ≠ []) by (intros ->; apply Hmean, mean_spec_nil).
  destruct (statistics_Fin_nonempty x x eq_refl Hx) as (Hb & Hr & Hm).
  destruct (foldr_differences_self x) as [Hs Hq].
  assert (Hb0 : metrics_spec.bias x x = 0%R).
  { unfold metrics_spec.bias, metrics_spec.mean. rewrite Hs. unfold Rdiv. ring. }
  assert (Hr0 : metrics_spec.rmse x x = 0%R).
  { unfold metrics_spec.rmse, metrics_spec.mean. rewrite Hq.
    unfold Rdiv. rewrite Rmult_0_l. apply sqrt_0. }
  unfold HIdata_error.calculate_errors. rewrite Hb, Hr, Hm, Hb0, Hr0.
  rewrite !div_Fin, !mul_Fin by done.
  repeat f_equal; unfold Rdiv; ring.
Qed.

Lemma calculate_errors_self_witness :
  HIdata_error.calculate_errors (Fin <$> [0.7; 0.9]%R) (Fin <$> [0.7; 0.9]%R)
  = (#0, #0, #0, #0).
Proof.
  apply (calculate_errors_self [0.7; 0.9]%R).
  unfold metrics_spec.mean. cbn. lra.
Defined.

Lemma mul_inf_of_sign_100 (b : R) : np.inf_of_sign b * #100 = np.inf_of_sign b.
Proof.
  unfold np.inf_of_sign. repeat case_decide; cbn; try done;
    unfold np.inf_of_sign; repeat case_decide; try done; lra.
Qed.

(** X12.  When the measured column has a mean of zero, the relative
    errors are not finite and nothing is raised: the relative bias is the
    infinity of the sign of the bias, NaN for a bias of zero, and the
    relative RMSE is plus infinity, NaN for an RMSE of zero; the bias and
    the RMSE themselves are not affected. *)
Theorem calculate_errors_zero_mean (predicted actual : list R) :
  length predicted = length actual →
  actual ≠ [] →
  metrics_spec.mean actual = 0%R →
  HIdata_error.calculate_errors (Fin <$> actual) (Fin <$> predicted)
  = (#(metrics_spec.bias predicted actual), #(metrics_spec.rmse predicted actual),
     np.inf_of_sign (metrics_spec.bias predicted actual),
     np.inf_of_sign (metrics_spec.rmse predicted actual))
  ∧ (0 <= metrics_spec.rmse predicted actual)%R.
Proof.
  intros Hlen Hactual Hmean.
  destruct (statistics_Fin_nonempty predicted actual Hlen Hactual) as (Hb & Hr & Hm).
  split.
  - unfold HIdata_error.calculate_errors. rewrite Hb, Hr, Hm, Hmean.
    cbn [np.div]. rewrite !decide_True by done.
    by rewrite !mul_inf_of_sign_100.
  - unfold metrics_spec.rmse. apply sqrt_pos.
Qed.

Lemma calculate_errors_zero_mean_witness :
  HIdata_error.calculate_errors (Fin <$> [1; -1]%R) (Fin <$> [2; 0]%R)
  = (#(metrics_spec.bias [2; 0]%R [1; -1]%R), #(metrics_spec.rmse [2; 0]%R [1; -1]%R),
     np.inf_of_sign (metrics_spec.bias [2; 0]%R [1; -1]%R),
     np.inf_of_sign (metrics_spec.rmse [2; 0]%R [1; -1]%R)).
Proof.
  apply (calculate_errors_zero_mean [2; 0]%R [1; -1]%R).
  - reflexivity.
  - discriminate.
  - unfold metrics_spec.mean. cbn. lra.
Defined.

Lemma foldr_shifted_squares (es : list R) (x : R) :
  foldr Rplus 0%R ((λ e, ((e - x) ^ 2)%R) <$> es)
  = (foldr Rplus 0 ((λ e, (e ^ 2)%R) <$> es) - 2 * x * foldr Rplus 0 es
     + INR (length es) * x ^ 2)%R.
Proof.
  induction es as [|e es IH]; [cbn; ring|].
  cbn [fmap list_fmap foldr length]. rewrite IH, S_INR. ring.
Qed.

Lemma foldr_shifted_squares_nonneg (es : list R) (x : R) :
  (0 <= foldr Rplus 0 ((λ e, ((e - x) ^ 2)%R) <$> es))%R.
Proof.
  induction es as [|e es IH]; cbn [fmap list_fmap foldr]; [lra|].
  pose proof (pow2_ge_0 (e - x)). lra.
Qed.

(** The square of a sum of n numbers is at most n times the sum of their
    squares. *)
Lemma square_sum_le (es : list R) :
  (foldr Rplus 0 es ^ 2 <= INR (length es) * foldr Rplus 0 ((λ e, (e ^ 2)%R) <$> es))%R.
Proof.
  induction es as [|x es IH]; [cbn; lra|].
  cbn [fmap list_fmap foldr length]. rewrite S_INR.
  pose proof (foldr_shifted_squares_nonneg es x) as Hs.
  rewrite foldr_shifted_squares in Hs.
  set (S := foldr Rplus 0%R es) in *.
  set (Q := foldr Rplus 0%R ((λ e, (e ^ 2)%R) <$> es)) in *.
  set (n := INR (length es)) in *.
  nra.
Qed.

Lemma abs_mean_le_rms (es : list R) :
  es ≠ [] →
  (Rabs (metrics_spec.mean es)
   <= R_sqrt.sqrt (metrics_spec.mean ((λ e, (e ^ 2)%R) <$> es)))%R.
Proof.
  intros Hes. rewrite <- sqrt_Rsqr_abs. apply sqrt_le_1_alt.
  unfold metrics_spec.mean, Rsqr. rewrite length_fmap.
  pose proof (INR_length_pos es Hes) as Hn.
  pose proof (square_sum_le es) as Hle.
  set (S := foldr Rplus 0%R es) in *.
  set (Q := foldr Rplus 0%R ((λ e, (e ^ 2)%R) <$> es)) in *.
  set (n := INR (length es)) in *.
  apply Rmult_le_reg_r with (n * n)%R; [nra|].
  replace (S / n * (S / n) * (n * n))%R with (S ^ 2)%R by (field; lra).
  replace (Q / n * (n * n))%R with (n * Q)%R by (field; lra).
  exact Hle.
Qed.

(** X13.  On two finite columns of equal length that are not empty, the
    RMSE that [calculate_errors] returns is at least the absolute value of
    the bias it returns, and it is zero only when the two columns are
    equal. *)
Theorem rmse_dominates_bias (predicted actual : list R) :
  length predicted = length actual →
  actual ≠ [] →
  ∃ (mbe rmse : R) (rMBE rRMSE : f64),
    HIdata_error.calculate_errors (Fin <$> actual) (Fin <$> predicted)
    = (#mbe, #rmse, rMBE, rRMSE)
    ∧ (Rabs mbe <= rmse)%R
    ∧ (rmse = 0%R → predicted = actual).
Proof.
  intros Hlen Hactual.
  destruct (statistics_Fin_nonempty predicted actual Hlen Hactual) as (Hb & Hr & Hm).
  exists (metrics_spec.bias predicted actual), (metrics_spec.rmse predicted actual).
  eexists _, _. split; [|split].
  - unfold HIdata_error.calculate_errors. rewrite Hb, Hr. reflexivity.
  - unfold metrics_spec.bias, metrics_spec.rmse. apply abs_mean_le_rms.
    destruct predicted, actual; cbn in *; done.
  - unfold metrics_spec.rmse, metrics_spec.mean. intros Hzero.
    apply sqrt_eq_0 in Hzero.
    2:{ apply (mean_squares_nonneg (zip_with Rminus predicted actual)). }
    assert (Hq : foldr Rplus 0%R ((λ e, (e ^ 2)%R) <$> zip_with Rminus predicted actual)
                 = 0%R).
    { rewrite length_fmap in Hzero.
      assert (Hn : (0 < INR (length (zip_with Rminus predicted actual)))%R).
      { apply INR_length_pos. destruct predicted, actual; cbn in *; done. }
      apply Rmult_integral in Hzero as [Hz|Hz]; [done|].
      pose proof (Rinv_0_lt_compat _ Hn). lra. }
    clear -Hlen Hq. revert actual Hlen Hq.
    induction predicted as [|p ps IH]; intros [|a as'] Hlen Hq; try done.
    cbn [zip_with fmap list_fmap foldr] in Hq.
    pose proof (foldr_squares_nonneg (zip_with Rminus ps as')) as Hrest.
    pose proof (pow2_ge_0 (p - a)) as Hhead.
    assert (Hpa : ((p - a) ^ 2 = 0)%R) by lra.
    assert (p = a) by nra. subst a. f_equal.
    apply IH; [by injection Hlen|lra].
Qed.

Lemma rmse_dominates_bias_witness :
  ∃ (mbe rmse : R) (rMBE rRMSE : f64),
    HIdata_error.calculate_errors (Fin <$> [1; 1; 1]%R) (Fin <$> [1.1; 0.9; 1]%R)
    = (#mbe, #rmse, rMBE, rRMSE)
    ∧ (Rabs mbe <= rmse)%R
    ∧ (rmse = 0%R → [1.1; 0.9; 1]%R = [1; 1; 1]%R).
Proof.
  apply (rmse_dominates_bias [1.1; 0.9; 1]%R [1; 1; 1]%R); [reflexivity|discriminate].
Defined.

Lemma mean_of_kept (xs : list f64) (ys : list R) :
  filter (λ x, np.isnan x = false) xs = Fin <$> ys →
  ys ≠ [] →
  np.mean xs = #(metrics_spec.mean ys).
Proof.
  intros Hkept Hys. rewrite <- (mean_Fin ys Hys).
  unfold np.mean. by rewrite filter_not_nan_Fin, Hkept.
Qed.

Lemma kept_errors (rows : list (R * option R)) :
  let errors := zip_with np.sub ((λ r, from_option Fin NaN r.2) <$> rows)
                  ((λ r, #(r.1)) <$> rows) in
  let valid := omap (λ r, (λ p, (p, r.1)) <$> r.2) rows in
  filter (λ x, np.isnan x = false) errors
  = Fin <$> zip_with Rminus (fst <$> valid) (snd <$> valid)
  ∧ filter (λ x, np.isnan x = false) ((λ e, e ^ 2) <$> errors)
    = Fin <$> ((λ e, (e ^ 2)%R) <$> zip_with Rminus (fst <$> valid) (snd <$> valid)).
Proof.
  induction rows as [|[a [p|]] rows [IH1 IH2]]; [done| |].
  - cbn [fmap list_fmap zip_with omap list_omap option_fmap option_map
         from_option fst snd] in *.
    rewrite !filter_cons_True by reflexivity.
    cbn [fmap list_fmap] in *. rewrite IH1, IH2. split; [done|].
    f_equal. exact (pow_int_Fin (p - a) 2).
  - cbn [fmap list_fmap zip_with omap list_omap option_fmap option_map
         from_option fst snd] in *.
    rewrite !filter_cons_False by (cbn; done).
    by rewrite IH1, IH2.
Qed.

(** X14.  A row whose prediction is NaN is left out of the bias and of
    the RMSE, which are those of the rows that have a prediction, but it
    still counts in the mean of the measured column by which the two
    relative errors are divided. *)
Theorem errors_skip_missing_predictions (rows : list (R * option R)) :
  let actual := (λ r, #(r.1)) <$> rows in
  let predicted := (λ r, from_option Fin NaN r.2) <$> rows in
  let valid := omap (λ r, (λ p, (p, r.1)) <$> r.2) rows in
  valid ≠ [] →
  metrics_spec.mean (fst <$> rows) ≠ 0%R →
  HIdata_error.calculate_errors actual predicted
  = (#(metrics_spec.bias (fst <$> valid) (snd <$> valid)),
     #(metrics_spec.rmse (fst <$> valid) (snd <$> valid)),
     #(metrics_spec.bias (fst <$> valid) (snd <$> valid)
       / metrics_spec.mean (fst <$> rows) * 100),
     #(metrics_spec.rmse (fst <$> valid) (snd <$> valid)
       / metrics_spec.mean (fst <$> rows) * 100)).
Proof.
  intros actual predicted valid Hvalid Hmean.
  destruct (kept_errors rows) as [Hk1 Hk2]. cbv zeta in Hk1, Hk2.
  fold valid in Hk1, Hk2.
  assert (Hdiff : zip_with Rminus (fst <$> valid) (snd <$> valid) ≠ []).
  { destruct valid as [|[p a] valid']; done. }
  assert (Hrows : rows ≠ []).
  { intros ->. by apply Hvalid. }
  assert (Hactual : np.mean actual = #(metrics_spec.mean (fst <$> rows))).
  { unfold actual. rewrite <- mean_Fin by (destruct rows; done).
    by rewrite <- list_fmap_compose. }
  subst actual predicted. unfold HIdata_error.calculate_errors.
  rewrite (mean_of_kept _ _ Hk1 Hdiff).
  rewrite (mean_of_kept _ _ Hk2) by (destruct (zip_with Rminus _ _); done).
  rewrite Hactual, sqrt_Fin by apply mean_squares_nonneg.
  rewrite !div_Fin, !mul_Fin by done. reflexivity.
Qed.

Lemma errors_skip_missing_predictions_witness :
  HIdata_error.calculate_errors [Fin 1; Fin 3] [Fin 1.5; NaN]
  = (#(metrics_spec.bias [1.5]%R [1]%R), #(metrics_spec.rmse [1.5]%R [1]%R),
     #(metrics_spec.bias [1.5]%R [1]%R / metrics_spec.mean [1; 3]%R * 100),
     #(metrics_spec.rmse [1.5]%R [1]%R / metrics_spec.mean [1; 3]%R * 100)).
Proof.
  apply (errors_skip_missing_predictions [(1, Some 1.5); (3, None)]%R).
  - discriminate.
  - unfold metrics_spec.mean. cbn. lra.
Defined.

(** * Further properties of the validation loop *)

Section validation.

Import models.

Context (data : DataFrame) (Ta ea Cloud_Fraction Emissivity_measured : list f64).
Hypothesis HTa : columns data !! "Ta"%string = Some Ta.
Hypothesis Hea : columns data !! "ea"%string = Some ea.
Hypothesis HCF : columns data !! "Cloud_Fraction"%string = Some Cloud_Fraction.
Hypothesis Hmeasured : columns data !! "Emissivity_measured"%string = Some Emissivity_measured.

Lemma validate_model_known (model : string) :
  model ∈ model_names → ∃ report : Report, validate_model data model = inr report.
Proof.
  intros Hin.
  destruct (dispatch_known Ta ea Cloud_Fraction model Hin) as [LW HLW].
  unfold validate_model, getitem. rewrite HTa, Hea, HCF, Hmeasured.
  cbn [mbind exn_bind]. rewrite HLW. cbn [mbind exn_bind]. by eexists.
Qed.

Lemma validate_model_unknown (model : string) :
  model ∉ model_names → validate_model data model = inl invalid_model.
Proof.
  intros Hout. unfold validate_model, getitem. rewrite HTa, Hea, HCF.
  cbn [mbind exn_bind]. by rewrite (dispatch_unknown Ta ea Cloud_Fraction model Hout).
Qed.

Lemma validate_loop_known (models : list string) (acc : gmap string Report) :
  (∀ m : string, m ∈ models → m ∈ model_names) →
  ∃ results : gmap string Report, validate_loop data models acc = inr results.
Proof.
  revert acc. induction models as [|m ms IH]; intros acc Hall; [by eexists|].
  cbn [validate_loop].
  destruct (validate_model_known m) as [report ->].
  { apply Hall, elem_of_cons. by left. }
  cbn [mbind exn_bind]. apply IH. intros m' Hm'. apply Hall, elem_of_cons. by right.
Qed.

Lemma validate_loop_unknown (models : list string) (acc : gmap string Report) :
  (∃ m : string, m ∈ models ∧ m ∉ model_names) →
  validate_loop data models acc = inl invalid_model.
Proof.
  revert acc. induction models as [|m ms IH]; intros acc (bad & Hin & Hbad).
  - by apply elem_of_nil in Hin.
  - cbn [validate_loop].
    destruct (decide (m ∈ model_names)) as [Hm|Hm].
    + destruct (validate_model_known m Hm) as [report ->]. cbn [mbind exn_bind].
      apply IH. exists bad. split; [|done].
      apply elem_of_cons in Hin as [->|Hin]; done.
    + by rewrite (validate_model_unknown m Hm).
Qed.

End validation.

(** X15.  On a table that has the columns Ta, ea, Cloud_Fraction and
    Emissivity_measured, [validate_emissivity] returns a report for each
    model of its list and for nothing else when all the models of the list
    are among the six names; when one of them is not, it raises the
    "Invalid model name" error and returns no report at all, not even for
    the models before it. *)
Theorem validate_emissivity_outcome (data : models.DataFrame) (models : list string)
    (Ta ea Cloud_Fraction Emissivity_measured : list f64) :
  models.columns data !! "Ta"%string = Some Ta →
  models.columns data !! "ea"%string = Some ea →
  models.columns data !! "Cloud_Fraction"%string = Some Cloud_Fraction →
  models.columns data !! "Emissivity_measured"%string = Some Emissivity_measured →
  ((∀ m : string, m ∈ models → m ∈ models.model_names) →
   ∃ results : gmap string models.Report,
     models.validate_emissivity data models = inr results
     ∧ ∀ m : string, is_Some (results !! m) ↔ m ∈ models)
  ∧ ((∃ m : string, m ∈ models ∧ m ∉ models.model_names) →
     models.validate_emissivity data models = inl models.invalid_model).
Proof.
  intros HTa Hea HCF Hmeas. split.
  - intros Hall.
    destruct (validate_loop_known data Ta ea Cloud_Fraction Emissivity_measured
                HTa Hea HCF Hmeas models ∅ Hall) as [results Hres].
    exists results. split; [exact Hres|]. intros m.
    pose proof (validate_loop_lookup data models ∅ results Hres m) as Hlook. split.
    + intros [rep Hrep]. apply Hlook in Hrep as [[Hin _]|[_ Hempty]]; [done|].
      by rewrite lookup_empty in Hempty.
    + intros Hin.
      destruct (validate_model_known data Ta ea Cloud_Fraction Emissivity_measured
                  HTa Hea HCF Hmeas m (Hall m Hin)) as [rep Hrep].
      exists rep. apply Hlook. by left.
  - apply (validate_loop_unknown data Ta ea Cloud_Fraction Emissivity_measured
             HTa Hea HCF Hmeas).
Qed.

Lemma validate_emissivity_outcome_witness :
  (∃ results : gmap string models.Report,
     models.validate_emissivity reading.one_row_table ["jacobs"; "lhomme"]%string
     = inr results
     ∧ ∀ m : string, is_Some (results !! m) ↔ m ∈ ["jacobs"; "lhomme"]%string)
  ∧ models.validate_emissivity reading.one_row_table ["jacobs"; "not_a_real_model"]%string
    = inl models.invalid_model.
Proof.
  split.
  - apply (validate_emissivity_outcome reading.one_row_table ["jacobs"; "lhomme"]%string
             [Fin 300] [Fin 10] [Fin 0] [Fin 0.8] eq_refl eq_refl eq_refl eq_refl).
    intros m Hm. unfold models.model_names.
    repeat (apply elem_of_cons in Hm as [->|Hm]); [..|by apply elem_of_nil in Hm].
    + apply elem_of_cons. right. apply elem_of_cons. by left.
    + do 5 (apply elem_of_cons; right). apply elem_of_cons. by left.
  - apply (validate_emissivity_outcome reading.one_row_table
             ["jacobs"; "not_a_real_model"]%string
             [Fin 300] [Fin 10] [Fin 0] [Fin 0.8] eq_refl eq_refl eq_refl eq_refl).
    exists "not_a_real_model"%string. split.
    + apply elem_of_cons. right. apply elem_of_cons. by left.
    + unfold models.model_names. intros Hin.
      repeat (apply elem_of_cons in Hin as [Hin|Hin]; [discriminate Hin|]).
      by apply elem_of_nil in Hin.
Defined.

(** X16.  A column that the loop of [validate_emissivity] reads and the
    table lacks raises [KeyError] at the first model: for Ta, ea and
    Cloud_Fraction before the model identifier is looked at, so even for
    an unknown model; for Emissivity_measured only after the dispatcher
    has run, so that an unknown model raises its own error instead.  With
    no model at all nothing is read and the empty table of reports is
    returned. *)
Theorem validate_emissivity_missing_column (data : models.DataFrame)
    (model : string) (models : list string) :
  models.validate_emissivity data [] = inr ∅
  ∧ (models.columns data !! "Ta"%string = None →
     models.validate_emissivity data (model :: models) = inl (KeyError "Ta"))
  ∧ (is_Some (models.columns data !! "Ta"%string) →
     models.columns data !! "ea"%string = None →
     models.validate_emissivity data (model :: models) = inl (KeyError "ea"))
  ∧ (is_Some (models.columns data !! "Ta"%string) →
     is_Some (models.columns data !! "ea"%string) →
     models.columns data !! "Cloud_Fraction"%string = None →
     models.validate_emissivity data (model :: models) = inl (KeyError "Cloud_Fraction"))
  ∧ (is_Some (models.columns data !! "Ta"%string) →
     is_Some (models.columns data !! "ea"%string) →
     is_Some (models.columns data !! "Cloud_Fraction"%string) →
     models.columns data !! "Emissivity_measured"%string = None →
     models.validate_emissivity data (model :: models)
     = inl (if decide (model ∈ models.model_names)
            then KeyError "Emissivity_measured" else models.invalid_model)).
Proof.
  split; [reflexivity|].
  unfold models.validate_emissivity. cbn [models.validate_loop].
  unfold models.validate_model, models.getitem.
  split; [|split; [|split]].
  - intros ->. reflexivity.
  - intros [Ta ->] ->. reflexivity.
  - intros [Ta ->] [ea ->] ->. reflexivity.
  - intros [Ta HTa] [ea Hea] [cf Hcf] Hmeas. rewrite HTa, Hea, Hcf, Hmeas.
    cbn [mbind exn_bind]. case_decide as Hm.
    + destruct (dispatch_known Ta ea cf model Hm) as [LW ->].
      reflexivity.
    + by rewrite (dispatch_unknown Ta ea cf model Hm).
Qed.

Lemma validate_emissivity_missing_column_witness :
  models.validate_emissivity reading.complete_table ["no_such_model"; "jacobs"]%string
  = inl (KeyError "Ta").
Proof.
  apply (validate_emissivity_missing_column reading.complete_table
           "no_such_model"%string ["jacobs"]%string).
  reflexivity.
Defined.

(** * Further properties of the reader of the stations *)

Lemma well_formed_setitem (df : models.DataFrame) (name : string) (xs : list f64) :
  tables.well_formed df → length xs = models.nrows df →
  tables.well_formed (models.setitem df name xs)
  ∧ models.nrows (models.setitem df name xs) = models.nrows df.
Proof.
  intros Hwf Hxs. split; [|reflexivity]. intros name' xs'.
  cbn [models.setitem models.columns models.nrows].
  destruct (decide (name = name')) as [->|Hne].
  - rewrite lookup_insert_eq. by intros [= <-].
  - rewrite lookup_insert_ne by done. apply Hwf.
Qed.

Lemma length_calculate_cloud_fraction (ghi_m ghi_c : list f64) (clr_pct : option (list f64))
    (n : nat) :
  length ghi_m = n → length ghi_c = n →
  (∀ clr : list f64, clr_pct = Some clr → length clr = n) →
  length (models.calculate_cloud_fraction ghi_m ghi_c clr_pct) = n.
Proof.
  intros Hm Hc Hclr. unfold models.calculate_cloud_fraction.
  destruct clr_pct as [clr|]; cbn [map1 map2 column_elementwise].
  - rewrite length_fmap. by apply Hclr.
  - rewrite length_fmap, length_zip_with. lia.
Qed.

(** A well-formed table that loads stays well-formed, keeps its number of
    rows and is tagged with its station on every row. *)
Lemma load_station_well_formed (file : gmap string models.DataFrame) (station : string)
    (df0 df : models.DataFrame) :
  file !! station = Some df0 →
  tables.well_formed df0 →
  models.load_station file station = inr df →
  tables.well_formed df
  ∧ models.nrows df = models.nrows df0
  ∧ models.Station df = replicate (models.nrows df0) station.
Proof.
  intros Hfile Hwf. rewrite load_station_unfold, Hfile.
  destruct (models.columns df0 !! "ghi_m"%string) as [ghi_m|] eqn:Hm; [|done].
  destruct (models.columns df0 !! "ghi_c"%string) as [ghi_c|] eqn:Hc; [|done].
  destruct (models.columns df0 !! "dlw_m"%string) as [dlw_m|] eqn:Hdlw; [|done].
  destruct (models.columns df0 !! "t_m"%string) as [t_m|] eqn:Ht; [|done].
  destruct (models.columns df0 !! "pw_hpa"%string) as [pw_hpa|] eqn:Hpw; [|done].
  intros [= <-].
  pose proof (Hwf _ _ Hm) as Lm. pose proof (Hwf _ _ Hc) as Lc.
  pose proof (Hwf _ _ Hdlw) as Ldlw. pose proof (Hwf _ _ Ht) as Lt.
  pose proof (Hwf _ _ Hpw) as Lpw.
  split; [|split; reflexivity].
  assert (Hset : ∀ (t : models.DataFrame) (name : string) (xs : list f64),
            tables.well_formed t → length xs = models.nrows t →
            tables.well_formed (models.setitem t name xs)).
  { intros t name xs Hwt Hxs. by apply well_formed_setitem. }
  assert (Htag : ∀ t : models.DataFrame,
            tables.well_formed t → tables.well_formed (models.set_Station t station)).
  { intros t Hwt name xs. cbn [models.set_Station models.columns models.nrows].
    intros Hxs. apply lookup_delete_Some in Hxs as [_ Hxs]. exact (Hwt name xs Hxs). }
  apply Htag.
  apply Hset; [|exact Lpw].
  apply Hset; [|exact Lt].
  apply Hset; [|cbn [models.nrows models.setitem]; rewrite length_zip_with; lia].
  apply Hset; [exact Hwf|].
  apply length_calculate_cloud_fraction; [done|done|].
  intros clr Hclr. by apply (Hwf "clr_pct"%string).
Qed.

Lemma concat2_well_formed (a b : models.DataFrame) :
  tables.well_formed a → tables.well_formed b →
  tables.well_formed (models.concat2 a b).
Proof.
  intros Ha Hb name xs. cbn [models.concat2 models.columns models.nrows].
  rewrite lookup_merge.
  destruct (models.columns a !! name) as [xa|] eqn:Hxa;
    destruct (models.columns b !! name) as [xb|] eqn:Hxb; cbn; try done;
    intros [= <-]; rewrite length_app, ?length_replicate;
    rewrite ?(Ha _ _ Hxa), ?(Hb _ _ Hxb); reflexivity.
Qed.

Lemma foldl_concat2 (df : models.DataFrame) (rest : list models.DataFrame) :
  tables.well_formed df →
  (∀ t : models.DataFrame, t ∈ rest → tables.well_formed t) →
  tables.well_formed (foldl models.concat2 df rest)
  ∧ models.nrows (foldl models.concat2 df rest)
    = (models.nrows df + sum_list_with models.nrows rest)%nat
  ∧ models.Station (foldl models.concat2 df rest)
    = models.Station df ++ mjoin (models.Station <$> rest).
Proof.
  revert df. induction rest as [|t rest IH]; intros df Hdf Hrest.
  - cbn. split; [done|]. split; [lia|by rewrite app_nil_r].
  - cbn [foldl].
    destruct (IH (models.concat2 df t)) as (Hwf & Hn & Hs).
    + apply concat2_well_formed; [done|]. apply Hrest, elem_of_cons. by left.
    + intros t' Ht'. apply Hrest, elem_of_cons. by right.
    + split; [done|]. split.
      * rewrite Hn. cbn. lia.
      * rewrite Hs. cbn. by rewrite <- app_assoc.
Qed.

(** X17.  When every table of the file has one value per row in each of
    its columns and at least one station loads, the reader returns a
    table with the same property, whose number of rows is the sum of the
    numbers of rows of the tables that loaded, in which every row carries
    a station tag, and whose tags are, table after table in the order of
    the station list, the name of the station on each of its rows. *)
Theorem read_surfrad_h5_well_formed (file : gmap string models.DataFrame)
    (stations : list string) :
  (∀ (station : string) (df0 : models.DataFrame),
     file !! station = Some df0 → tables.well_formed df0) →
  reading.loaded file stations ≠ [] →
  ∃ df : models.DataFrame,
    models.read_surfrad_h5 file stations = inr (df, reading.warnings file stations)
    ∧ tables.well_formed df
    ∧ tables.tagged df
    ∧ models.nrows df = sum_list_with models.nrows (reading.loaded file stations)
    ∧ models.Station df
      = mjoin (omap (λ station,
                       match models.load_station file station, file !! station with
                       | inr _, Some df0 => Some (replicate (models.nrows df0) station)
                       | _, _ => None
                       end) stations).
Proof.
  intros Hfile Hloaded.
  assert (Hall : ∀ t, t ∈ reading.loaded file stations →
            tables.well_formed t ∧ tables.tagged t).
  { intros t Ht. apply elem_of_loaded in Ht as (station & Hin & Hload).
    destruct (file !! station) as [df0|] eqn:Hdf0.
    - destruct (load_station_well_formed file station df0 t Hdf0 (Hfile _ _ Hdf0) Hload)
        as (Hwf & Hn & Hs).
      split; [done|]. unfold tables.tagged. by rewrite Hs, length_replicate.
    - rewrite load_station_unfold, Hdf0 in Hload. done. }
  assert (Htags : mjoin (models.Station <$> reading.loaded file stations)
                  = mjoin (omap (λ station,
                       match models.load_station file station, file !! station with
                       | inr _, Some df0 => Some (replicate (models.nrows df0) station)
                       | _, _ => None
                       end) stations)).
  { unfold reading.loaded. clear Hloaded Hall.
    induction stations as [|station stations IH]; [done|].
    cbn [omap list_omap].
    destruct (models.load_station file station) as [e|t] eqn:Hload; [exact IH|].
    destruct (file !! station) as [df0|] eqn:Hdf0.
    - destruct (load_station_well_formed file station df0 t Hdf0 (Hfile _ _ Hdf0) Hload)
        as (_ & _ & Hs).
      rewrite fmap_cons. cbn [mjoin list_join]. rewrite Hs. f_equal. exact IH.
    - rewrite load_station_unfold, Hdf0 in Hload. done. }
  rewrite read_surfrad_h5_spec. rewrite <- Htags.
  destruct (reading.loaded file stations) as [|df rest] eqn:Hl; [done|].
  destruct (foldl_concat2 df rest) as (Hwf & Hn & Hs).
  { apply Hall, elem_of_cons. by left. }
  { intros t Ht. apply Hall, elem_of_cons. by right. }
  eexists. split; [reflexivity|]. split; [exact Hwf|]. split; [|split].
  - unfold tables.tagged. rewrite Hs, Hn, length_app.
    assert (Hdf : tables.tagged df) by (apply Hall, elem_of_cons; by left).
    unfold tables.tagged in Hdf. rewrite Hdf. f_equal.
    assert (Hrest : ∀ t, t ∈ rest → tables.tagged t).
    { intros t Ht. apply Hall, elem_of_cons. by right. }
    clear -Hrest. induction rest as [|t rest IH]; [done|].
    rewrite fmap_cons. cbn [mjoin list_join sum_list_with]. rewrite length_app.
    f_equal.
    + apply Hrest, elem_of_cons. by left.
    + apply IH. intros t' Ht'. apply Hrest, elem_of_cons. by right.
  - rewrite Hn. reflexivity.
  - rewrite Hs. reflexivity.
Qed.

Lemma complete_table_well_formed : tables.well_formed reading.complete_table.
Proof.
  intros name xs. unfold reading.complete_table. cbn [models.columns models.nrows].
  intros Hxs. apply elem_of_list_to_map_2 in Hxs.
  repeat (apply elem_of_cons in Hxs as [[= -> ->]|Hxs]; [reflexivity|]).
  by apply elem_of_nil in Hxs.
Qed.

Lemma read_surfrad_h5_well_formed_witness :
  ∃ df : models.DataFrame,
    models.read_surfrad_h5 reading.file_BON_DRA ["BON"; "DRA"]%string
    = inr (df, reading.warnings reading.file_BON_DRA ["BON"; "DRA"]%string)
    ∧ tables.well_formed df
    ∧ tables.tagged df
    ∧ models.nrows df
      = sum_list_with models.nrows (reading.loaded reading.file_BON_DRA ["BON"; "DRA"]%string)
    ∧ models.Station df
      = mjoin (omap (λ station,
                       match models.load_station reading.file_BON_DRA station,
                             reading.file_BON_DRA !! station with
                       | inr _, Some df0 => Some (replicate (models.nrows df0) station)
                       | _, _ => None
                       end) ["BON"; "DRA"]%string).
Proof.
  apply (read_surfrad_h5_well_formed reading.file_BON_DRA ["BON"; "DRA"]%string).
  - intros station df0 Hdf0. unfold reading.file_BON_DRA in Hdf0.
    apply elem_of_list_to_map_2 in Hdf0.
    apply elem_of_cons in Hdf0 as [[= -> ->]|Hdf0].
    + intros name xs Hxs. unfold reading.table_without_ghi_m in Hxs.
      cbn [models.columns models.nrows] in *.
      apply elem_of_list_to_map_2 in Hxs.
      repeat (apply elem_of_cons in Hxs as [[= -> ->]|Hxs]; [reflexivity|]).
      by apply elem_of_nil in Hxs.
    + apply elem_of_cons in Hdf0 as [[= -> ->]|Hdf0];
        [apply complete_table_well_formed|by apply elem_of_nil in Hdf0].
  - unfold reading.loaded. cbn [omap list_omap].
    rewrite !load_station_unfold. cbn. discriminate.
Defined.

(** X18.  A table that loads keeps every float column it had under
    another name than Cloud_Fraction, Emissivity_measured, Ta, ea and
    Station; its column Ta is the column t_m, its column ea the column
    pw_hpa, its column Emissivity_measured holds dlw_m / (sigma * t_m^4)
    row by row, and its column Station is no float column any more but
    the name of the station on every row. *)
Theorem load_station_columns (file : gmap string models.DataFrame) (station : string)
    (df0 df : models.DataFrame) :
  file !! station = Some df0 →
  models.load_station file station = inr df →
  ∃ dlw_m t_m pw_hpa : list f64,
    models.columns df0 !! "dlw_m"%string = Some dlw_m
    ∧ models.columns df0 !! "t_m"%string = Some t_m
    ∧ models.columns df0 !! "pw_hpa"%string = Some pw_hpa
    ∧ models.columns df !! "Ta"%string = Some t_m
    ∧ models.columns df !! "ea"%string = Some pw_hpa
    ∧ models.columns df !! "Emissivity_measured"%string
      = Some (zip_with (λ dlw_m t_m, dlw_m / (#models.sigma * t_m ^ 4)) dlw_m t_m)
    ∧ models.columns df !! "Station"%string = None
    ∧ models.Station df = replicate (models.nrows df0) station
    ∧ ∀ name : string,
        name ∉ ["Cloud_Fraction"; "Emissivity_measured"; "Ta"; "ea"; "Station"]%string →
        models.columns df !! name = models.columns df0 !! name.
Proof.
  intros Hfile. rewrite load_station_unfold, Hfile.
  destruct (models.columns df0 !! "ghi_m"%string) as [ghi_m|] eqn:Hm; [|done].
  destruct (models.columns df0 !! "ghi_c"%string) as [ghi_c|] eqn:Hc; [|done].
  destruct (models.columns df0 !! "dlw_m"%string) as [dlw_m|] eqn:Hdlw; [|done].
  destruct (models.columns df0 !! "t_m"%string) as [t_m|] eqn:Ht; [|done].
  destruct (models.columns df0 !! "pw_hpa"%string) as [pw_hpa|] eqn:Hpw; [|done].
  intros [= <-]. exists dlw_m, t_m, pw_hpa.
  cbn [models.set_Station models.setitem models.columns models.Station models.nrows].
  repeat split.
  - rewrite lookup_delete_ne by done.
    rewrite lookup_insert_ne by done. by rewrite lookup_insert_eq.
  - rewrite lookup_delete_ne by done. by rewrite lookup_insert_eq.
  - rewrite lookup_delete_ne by done.
    rewrite !lookup_insert_ne by done. by rewrite lookup_insert_eq.
  - by rewrite lookup_delete_eq.
  - intros name Hname.
    repeat (apply not_elem_of_cons in Hname as [? Hname]).
    rewrite lookup_delete_ne by done.
    by rewrite !lookup_insert_ne by done.
Qed.

Lemma load_station_columns_witness :
  ∃ t_m : list f64,
    models.columns reading.complete_table !! "t_m"%string = Some t_m
    ∧ models.columns
        (models.set_Station
           (models.setitem
              (models.setitem
                 (models.setitem
                    (models.setitem reading.complete_table "Cloud_Fraction"
                       (models.calculate_cloud_fraction [Fin 400; Fin 600] [Fin 800; Fin 500]
                          None))
                    "Emissivity_measured"
                    (zip_with models.compute_emissivity [Fin 350; Fin 360] [Fin 290; Fin 295]))
                 "Ta" [Fin 290; Fin 295])
              "ea" [Fin 12; Fin 14])
           "DRA") !! "Ta"%string = Some t_m
    ∧ models.columns
        (models.set_Station
           (models.setitem
              (models.setitem
                 (models.setitem
                    (models.setitem reading.complete_table "Cloud_Fraction"
                       (models.calculate_cloud_fraction [Fin 400; Fin 600] [Fin 800; Fin 500]
                          None))
                    "Emissivity_measured"
                    (zip_with models.compute_emissivity [Fin 350; Fin 360] [Fin 290; Fin 295]))
                 "Ta" [Fin 290; Fin 295])
              "ea" [Fin 12; Fin 14])
           "DRA") !! "Station"%string = None.
Proof.
  destruct (load_station_columns reading.file_BON_DRA "DRA" reading.complete_table _
              eq_refl
              (load_station_inr reading.file_BON_DRA "DRA" reading.complete_table
                 [Fin 400; Fin 600] [Fin 800; Fin 500] [Fin 350; Fin 360]
                 [Fin 290; Fin 295] [Fin 12; Fin 14]
                 eq_refl eq_refl eq_refl eq_refl eq_refl eq_refl))
    as (dlw_m & t_m & pw_hpa & _ & H2 & _ & H4 & _ & _ & H7 & _).
  exists t_m. repeat split; assumption.
Defined.

(** * Further properties of the single-station script *)

(** X19.  On a row of finite values that passes the filters, the cloud
    fraction index is a finite number above n1 and the actual emissivity
    is a finite number above 0: the filters keep the divisions of these
    two formulas away from zero.  The clear-sky emissivity of such a row
    is a finite number above 0.45 when the relative humidity is not
    negative, and NaN when it is negative, which no filter excludes. *)
Theorem retained_row_values (dhi ghi dni dni_c t dl rh elev sza : R) :
  HIdata_error.mask (sheets.finite_row dhi ghi dni dni_c t dl rh elev sza) = true →
  (∃ cf : R, HIdata_error.calculate_cf #dhi #ghi #dni #dni_c = #cf
             ∧ (HIdata_error.n1 < cf)%R)
  ∧ (∃ e : R, HIdata_error.calculate_actual_epsilon #t #dl = #e ∧ (0 < e)%R)
  ∧ ((0 <= rh)%R →
     ∃ e : R, HIdata_error.calculate_clear_sky_emissivity #t #rh #elev = #e
              ∧ (0.45 < e)%R)
  ∧ ((rh < 0)%R → HIdata_error.calculate_clear_sky_emissivity #t #rh #elev = NaN).
Proof.
  intros Hmask. apply mask_finite_row in Hmask
    as (Hsza & [Hghi Hdhi] & [Hkt0 Hkt1] & [Ht0 Ht1] & Hdl).
  assert (Hdni_c : dni_c ≠ 0%R).
  { intros ->. rewrite Rdiv_0_r in Hkt0. lra. }
  split; [|split; [|split]].
  - unfold HIdata_error.calculate_cf.
    assert (Hkd : (0 < dhi / ghi)%R) by (apply Rdiv_lt_0_compat; lra).
    rewrite !div_Fin by lra. rewrite !power_Fin by done.
    rewrite !mul_Fin, !add_Fin. eexists. split; [reflexivity|].
    assert (0 < Rpower (dhi / ghi) HIdata_error.a2)%R by apply exp_pos.
    assert (0 < Rpower (dni / dni_c) HIdata_error.m2)%R by apply exp_pos.
    assert (0 < HIdata_error.a1)%R by (unfold HIdata_error.a1; lra).
    assert (0 < HIdata_error.m1)%R by (unfold HIdata_error.m1; lra).
    nra.
  - unfold HIdata_error.calculate_actual_epsilon.
    rewrite add_Fin, pow_int_Fin, mul_Fin.
    assert (Hk : (0 < (t + 273.15) ^ 4)%R) by (apply pow_lt; lra).
    assert (Hs : (0 < HIdata_error.sigma)%R) by (unfold HIdata_error.sigma; lra).
    assert (Hd : (0 < HIdata_error.sigma * (t + 273.15) ^ 4)%R)
      by (by apply Rmult_lt_0_compat).
    rewrite div_Fin by lra. eexists. split; [reflexivity|].
    by apply Rdiv_lt_0_compat.
  - intros Hrh. unfold HIdata_error.calculate_clear_sky_emissivity, HIdata_error.H.
    rewrite sub_Fin, add_Fin, mul_Fin, div_Fin, exp_Fin, !mul_Fin by lra.
    rewrite neg_Fin, !div_Fin, exp_Fin, sub_Fin by lra.
    set (e_s := Rtrigo_def.exp _).
    assert (0 < e_s)%R by apply exp_pos.
    rewrite sqrt_Fin.
    2:{ apply Rmult_le_pos; [|lra]. apply Rmult_le_pos; [|lra].
        apply Rmult_le_pos; [nra|assumption]. }
    rewrite !mul_Fin, !add_Fin. eexists. split; [reflexivity|].
    pose proof (sqrt_pos (6.112 * e_s * rh / 100 / 1013.25)).
    pose proof (exp_pos (- elev / 8500)).
    lra.
  - intros Hrh. unfold HIdata_error.calculate_clear_sky_emissivity, HIdata_error.H.
    rewrite sub_Fin, add_Fin, mul_Fin, div_Fin, exp_Fin, !mul_Fin by lra.
    rewrite neg_Fin, !div_Fin, exp_Fin, sub_Fin by lra.
    set (e_s := Rtrigo_def.exp _).
    assert (0 < e_s)%R by apply exp_pos.
    assert (Hneg : (6.112 * e_s * rh / 100 / 1013.25 < 0)%R).
    { assert (6.112 * e_s * rh < 0)%R by nra. lra. }
    cbn [np.sqrt]. rewrite decide_True by done. reflexivity.
Qed.

Lemma retained_row_values_witness :
  (∃ cf : R, HIdata_error.calculate_cf #100 #500 #400 #500 = #cf
             ∧ (HIdata_error.n1 < cf)%R)
  ∧ HIdata_error.calculate_clear_sky_emissivity #20 #(-5) #10 = NaN.
Proof.
  split.
  - apply (retained_row_values 100 500 400 500 20 350 60 10 30).
    apply mask_finite_row. lra.
  - apply (retained_row_values 100 500 400 500 20 350 (-5) 10 30).
    + apply mask_finite_row. lra.
    + lra.
Defined.

(** * The report of the single-station script *)

Lemma snd_filter_zip_seq (P : HIdata_error.Row → Prop) `{∀ r, Decision (P r)}
    (sheet : list HIdata_error.Row) (n : nat) :
  snd <$> filter (λ p : nat * HIdata_error.Row, P p.2) (zip (seq n (length sheet)) sheet)
  = filter P sheet.
Proof.
  revert n. induction sheet as [|r sheet IH]; intros n; [done|].
  cbn [length seq zip_with]. destruct (decide (P r)) as [HP|HP].
  - rewrite !filter_cons_True by done. rewrite fmap_cons. cbn [snd]. by rewrite IH.
  - rewrite !filter_cons_False by done. apply IH.
Qed.

Lemma rows_of_data (sheet : list HIdata_error.Row) :
  snd <$> HIdata_error.data (HIdata_error.script sheet)
  = filter (λ r, HIdata_error.mask r = true) sheet.
Proof.
  cbn [HIdata_error.script HIdata_error.data]. unfold HIdata_error.read_excel.
  exact (snd_filter_zip_seq (λ r, HIdata_error.mask r = true) sheet 0).
Qed.

Lemma rows_of_read_excel (sheet : list HIdata_error.Row) :
  snd <$> HIdata_error.read_excel sheet = sheet.
Proof. unfold HIdata_error.read_excel. apply snd_zip. by rewrite length_seq. Qed.

(** The rows on which the table stands at the end, without their labels. *)
Lemma rows_of_effective (sheet : list HIdata_error.Row) :
  snd <$> sheets.effective sheet
  = match filter (λ r, HIdata_error.mask r = true) sheet with
    | [] => sheet
    | retained => retained
    end.
Proof.
  unfold sheets.effective. rewrite <- (rows_of_data sheet).
  destruct (HIdata_error.data (HIdata_error.script sheet)) as [|p d]; [|done].
  apply rows_of_read_excel.
Qed.

(** The values of a stored column, read off the rows of the table. *)
Lemma stored_values (sheet : list HIdata_error.Row) (s : list (nat * f64))
    (f : HIdata_error.Row → f64) :
  (∀ (l : nat) (r : HIdata_error.Row),
     (l, r) ∈ sheets.effective sheet → HIdata_error.at_label s l = f r) →
  snd <$> HIdata_error.reindex (sheets.effective sheet) s
  = f <$> (snd <$> sheets.effective sheet).
Proof.
  intros Hat. unfold HIdata_error.reindex.
  rewrite <- !list_fmap_compose. apply list_fmap_ext.
  intros i [l r] Hi. cbn. apply Hat. by eapply list_elem_of_lookup_2.
Qed.

(** The report of the script, by the rows on which the table stands at
    the end. *)
Lemma errors_of_effective (sheet : list HIdata_error.Row) :
  HIdata_error.errors (HIdata_error.script sheet)
  = HIdata_error.calculate_errors
      ((λ r, HIdata_error.calculate_actual_epsilon (HIdata_error.temp r) (HIdata_error.dlw r))
         <$> (snd <$> sheets.effective sheet))
      ((λ r, HIdata_error.predict_epsilon_sky
               (HIdata_error.calculate_cf (HIdata_error.DHI r) (HIdata_error.GHI r)
                  (HIdata_error.DNI r) (HIdata_error.Clearsky_DNI r))
               (HIdata_error.calculate_clear_sky_emissivity (HIdata_error.temp r)
                  (HIdata_error.rh r) (HIdata_error.site_elev r))
               #1) <$> (snd <$> sheets.effective sheet)).
Proof.
  change (HIdata_error.errors (HIdata_error.script sheet))
    with (HIdata_error.calculate_errors
            (snd <$> HIdata_error.column (HIdata_error.final (HIdata_error.script sheet))
                       "actual_epsilon")
            (snd <$> HIdata_error.column (HIdata_error.final (HIdata_error.script sheet))
                       "predicted_epsilon")).
  pose proof (stored_columns sheet) as Hcols. cbv zeta in Hcols.
  destruct Hcols as (-> & _ & _ & ->).
  f_equal.
  - apply stored_values. intros l r Hin.
    apply loc_effective in Hin as [_ Hl].
    pose proof (returned_at sheet l r Hl) as Hret. cbv zeta in Hret.
    by destruct Hret as (_ & Hact & _).
  - apply stored_values. intros l r Hin. by apply predicted_at.
Qed.

(** X11.  When no row of the sheet passes the filters, line 68 leaves a
    table without rows, and the first column assignment gives the table
    the rows of the sheet again: every label of the sheet, with NaN in
    the columns that were read from the sheet.  The four added columns
    then hold, at every row of the sheet, the formulas of the values of
    that row, and the script reports the error statistics of all the rows
    of the sheet. *)
Theorem script_without_retained_rows (sheet : list HIdata_error.Row) :
  (∀ r : HIdata_error.Row, r ∈ sheet → HIdata_error.mask r = false) →
  let run := HIdata_error.script sheet in
  HIdata_error.data run = []
  ∧ HIdata_error.rows (HIdata_error.final run)
    = (λ p, (p.1, HIdata_error.nan_row)) <$> HIdata_error.read_excel sheet
  ∧ (∀ (l : nat) (r : HIdata_error.Row),
       sheet !! l = Some r →
       HIdata_error.at_label (HIdata_error.column (HIdata_error.final run) "actual_epsilon") l
       = HIdata_error.calculate_actual_epsilon (HIdata_error.temp r) (HIdata_error.dlw r)
       ∧ HIdata_error.at_label
           (HIdata_error.column (HIdata_error.final run) "epsilon_clear_sky") l
         = HIdata_error.calculate_clear_sky_emissivity (HIdata_error.temp r)
             (HIdata_error.rh r) (HIdata_error.site_elev r)
       ∧ HIdata_error.at_label (HIdata_error.column (HIdata_error.final run) "CF") l
         = HIdata_error.calculate_cf (HIdata_error.DHI r) (HIdata_error.GHI r)
             (HIdata_error.DNI r) (HIdata_error.Clearsky_DNI r)
       ∧ HIdata_error.at_label
           (HIdata_error.column (HIdata_error.final run) "predicted_epsilon") l
         = HIdata_error.predict_epsilon_sky
             (HIdata_error.calculate_cf (HIdata_error.DHI r) (HIdata_error.GHI r)
                (HIdata_error.DNI r) (HIdata_error.Clearsky_DNI r))
             (HIdata_error.calculate_clear_sky_emissivity (HIdata_error.temp r)
                (HIdata_error.rh r) (HIdata_error.site_elev r))
             #1)
  ∧ HIdata_error.errors run
    = HIdata_error.calculate_errors
        ((λ r, HIdata_error.calculate_actual_epsilon (HIdata_error.temp r)
                 (HIdata_error.dlw r)) <$> sheet)
        ((λ r, HIdata_error.predict_epsilon_sky
                 (HIdata_error.calculate_cf (HIdata_error.DHI r) (HIdata_error.GHI r)
                    (HIdata_error.DNI r) (HIdata_error.Clearsky_DNI r))
                 (HIdata_error.calculate_clear_sky_emissivity (HIdata_error.temp r)
                    (HIdata_error.rh r) (HIdata_error.site_elev r))
                 #1) <$> sheet).
Proof.
  intros Hnone run.
  assert (Hdata : HIdata_error.data run = []).
  { apply elem_of_nil_inv. intros [l r] Hin.
    apply elem_of_data in Hin as [Hl Hm].
    rewrite (Hnone r) in Hm; [done|]. by eapply list_elem_of_lookup_2. }
  assert (Heff : sheets.effective sheet = HIdata_error.read_excel sheet).
  { unfold sheets.effective. fold run. by rewrite Hdata. }
  split; [exact Hdata|]. split; [|split].
  - pose proof (script_final sheet) as Hfinal. cbv zeta in Hfinal.
    unfold run. rewrite Hfinal. cbn [HIdata_error.rows].
    unfold sheets.final_rows. fold run. by rewrite Hdata.
  - intros l r Hl. apply (stored_at sheet l r).
    rewrite Heff. apply loc_Some_elem. by rewrite loc_read_excel.
  - unfold run. rewrite errors_of_effective, Heff, rows_of_read_excel. reflexivity.
Qed.

Lemma script_without_retained_rows_witness :
  HIdata_error.data (HIdata_error.script sheets.low_sun) = []
  ∧ fst <$> HIdata_error.rows (HIdata_error.final (HIdata_error.script sheets.low_sun))
    = [0; 1]%nat.
Proof.
  assert (Hnone : ∀ r : HIdata_error.Row,
            r ∈ sheets.low_sun → HIdata_error.mask r = false).
  { intros r Hr. unfold sheets.low_sun in Hr.
    apply elem_of_cons in Hr as [->|Hr];
      [|apply list_elem_of_singleton in Hr as ->];
      apply not_true_is_false; rewrite mask_finite_row; lra. }
  pose proof (script_without_retained_rows sheets.low_sun Hnone) as Hrun.
  cbv zeta in Hrun. destruct Hrun as (Hdata & Hrows & _).
  split; [exact Hdata|]. rewrite Hrows. reflexivity.
Defined.

(** X22.  The four error statistics of the script are those of the
    per-row formulas on the rows of the table at the end, in the order of
    the sheet: the rows that pass the filters or, when no row passes, all
    the rows of the sheet.  The labels have no influence on them, and the
    script reports the same on the sheet as on these rows alone. *)
Theorem script_errors_of_table_rows (sheet : list HIdata_error.Row) :
  let table_rows :=
    match filter (λ r, HIdata_error.mask r = true) sheet with
    | [] => sheet
    | retained => retained
    end in
  HIdata_error.errors (HIdata_error.script sheet)
  = HIdata_error.calculate_errors
      ((λ r, HIdata_error.calculate_actual_epsilon (HIdata_error.temp r) (HIdata_error.dlw r))
         <$> table_rows)
      ((λ r, HIdata_error.predict_epsilon_sky
               (HIdata_error.calculate_cf (HIdata_error.DHI r) (HIdata_error.GHI r)
                  (HIdata_error.DNI r) (HIdata_error.Clearsky_DNI r))
               (HIdata_error.calculate_clear_sky_emissivity (HIdata_error.temp r)
                  (HIdata_error.rh r) (HIdata_error.site_elev r))
               #1) <$> table_rows)
  ∧ HIdata_error.errors (HIdata_error.script sheet)
    = HIdata_error.errors (HIdata_error.script table_rows).
Proof.
  intros table_rows.
  assert (Hrows : snd <$> sheets.effective sheet = table_rows) by apply rows_of_effective.
  assert (Hagain : snd <$> sheets.effective table_rows = table_rows).
  { rewrite rows_of_effective. unfold table_rows.
    destruct (filter (λ r, HIdata_error.mask r = true) sheet) as [|r retained] eqn:Hf.
    - by rewrite Hf.
    - rewrite <- Hf. rewrite list_filter_filter_l by done. by rewrite Hf. }
  split.
  - by rewrite errors_of_effective, Hrows.
  - by rewrite (errors_of_effective sheet), (errors_of_effective table_rows), Hrows, Hagain.
Qed.

(** * Properties of the selection of the best model *)

Section selection.

Import selection.

Context {A : Type} (key : A → f64).

Lemma min_by_snoc (x : A) (xs : list A) (y : A) :
  min_by key x (xs ++ [y])
  = if np.lt (key y) (key (min_by key x xs)) then y else min_by key x xs.
Proof. unfold min_by. by rewrite foldl_app. Qed.

(** The item that [min] returns splits the items in those before it,
    whose keys are greater, and those after it, whose keys are not
    smaller. *)
Lemma min_by_first_minimum (x : A) (xs : list A) :
  (∀ y : A, y ∈ x :: xs → ∃ r : R, key y = #r) →
  ∃ (pre post : list A),
    x :: xs = pre ++ min_by key x xs :: post
    ∧ (∀ y : A, y ∈ pre → np.lt (key (min_by key x xs)) (key y) = true)
    ∧ (∀ y : A, y ∈ post → np.le (key (min_by key x xs)) (key y) = true).
Proof.
  induction xs as [|y xs IH] using rev_ind; intros Hfin.
  - exists [], []. split; [done|]. split; intros y Hy; by apply elem_of_nil in Hy.
  - destruct IH as (pre & post & Hsplit & Hpre & Hpost).
    { intros z Hz. apply Hfin. rewrite app_comm_cons. apply elem_of_app. by left. }
    rewrite min_by_snoc.
    destruct (Hfin y) as [ry Hry].
    { rewrite app_comm_cons. apply elem_of_app. right. apply elem_of_cons. by left. }
    destruct (Hfin (min_by key x xs)) as [rb Hrb].
    { rewrite app_comm_cons, Hsplit. apply elem_of_app. left.
      apply elem_of_app. right. apply elem_of_cons. by left. }
    rewrite Hry, Hrb in *. cbn [np.lt].
    destruct (bool_decide (ry < rb)%R) eqn:Hlt.
    + apply bool_decide_eq_true in Hlt.
      exists (x :: xs), []. split; [by rewrite app_comm_cons|]. split.
      * intros z Hz. rewrite Hry. destruct (Hfin z) as [rz Hrz].
        { rewrite app_comm_cons. apply elem_of_app. by left. }
        rewrite Hrz. cbn. apply bool_decide_eq_true.
        rewrite Hsplit in Hz. apply elem_of_app in Hz as [Hz|Hz].
        -- specialize (Hpre z Hz). rewrite Hrz in Hpre. cbn in Hpre.
           apply bool_decide_eq_true in Hpre. lra.
        -- apply elem_of_cons in Hz as [->|Hz].
           ++ rewrite Hrb in Hrz. injection Hrz as <-. lra.
           ++ specialize (Hpost z Hz). rewrite Hrz in Hpost. cbn in Hpost.
              apply bool_decide_eq_true in Hpost. lra.
      * intros z Hz. by apply elem_of_nil in Hz.
    + apply bool_decide_eq_false in Hlt.
      exists pre, (post ++ [y]). split.
      { rewrite app_comm_cons, Hsplit. rewrite <- app_assoc. reflexivity. }
      rewrite Hrb. split.
      * intros z Hz. specialize (Hpre z Hz). exact Hpre.
      * intros z Hz. apply elem_of_app in Hz as [Hz|Hz].
        -- exact (Hpost z Hz).
        -- apply elem_of_cons in Hz as [->|Hz]; [|by apply elem_of_nil in Hz].
           rewrite Hry. cbn. apply bool_decide_eq_true. lra.
Qed.

(** A first item whose key is NaN is never replaced. *)
Lemma min_by_NaN_first (x : A) (xs : list A) :
  key x = NaN → min_by key x xs = x.
Proof.
  intros Hx. induction xs as [|y xs IH] using rev_ind; [done|].
  rewrite min_by_snoc, IH, Hx. by destruct (key y).
Qed.

(** An item whose key is NaN never replaces another one. *)
Lemma min_by_NaN_later (x : A) (xs : list A) :
  key (min_by key x xs) = NaN → key x = NaN.
Proof.
  induction xs as [|y xs IH] using rev_ind; [done|].
  rewrite min_by_snoc.
  destruct (np.lt (key y) (key (min_by key x xs))) eqn:Hlt; [|exact IH].
  intros Hy. rewrite Hy in Hlt. done.
Qed.

End selection.

(** X20.  When every model of the table of reports has a finite RMSE,
    the best model is a model of the table whose RMSE is smaller than
    that of every model inserted before it and not greater than that of
    every model inserted after it: the first of the models with the
    smallest RMSE. *)
Theorem best_model_first_minimum (keys : list string)
    (model_results : gmap string models.Report) :
  keys ≠ [] →
  (∀ k : string, k ∈ keys →
     ∃ (report : models.Report) (r : R),
       model_results !! k = Some report ∧ models.RMSE report = #r) →
  ∃ (best : string) (before after : list string),
    selection.best_model keys model_results = Some best
    ∧ keys = before ++ best :: after
    ∧ (∀ m : string, m ∈ before →
         np.lt (selection.RMSE_of model_results best)
               (selection.RMSE_of model_results m) = true)
    ∧ (∀ m : string, m ∈ after →
         np.le (selection.RMSE_of model_results best)
               (selection.RMSE_of model_results m) = true).
Proof.
  intros Hkeys Hfin. destruct keys as [|k ks]; [done|].
  destruct (min_by_first_minimum (selection.RMSE_of model_results) k ks)
    as (pre & post & Hsplit & Hpre & Hpost).
  { intros y Hy. destruct (Hfin y Hy) as (report & r & Hrep & Hr).
    exists r. unfold selection.RMSE_of. by rewrite Hrep. }
  exists (selection.min_by (selection.RMSE_of model_results) k ks), pre, post.
  repeat split; assumption.
Qed.

Lemma best_model_first_minimum_witness :
  ∃ (best : string) (before after : list string),
    selection.best_model ["A"; "B"; "C"]%string selection.scenario_results = Some best
    ∧ ["A"; "B"; "C"]%string = before ++ best :: after
    ∧ (∀ m : string, m ∈ before →
         np.lt (selection.RMSE_of selection.scenario_results best)
               (selection.RMSE_of selection.scenario_results m) = true)
    ∧ (∀ m : string, m ∈ after →
         np.le (selection.RMSE_of selection.scenario_results best)
               (selection.RMSE_of selection.scenario_results m) = true).
Proof.
  apply (best_model_first_minimum ["A"; "B"; "C"]%string selection.scenario_results).
  - discriminate.
  - intros k Hk.
    repeat (apply elem_of_cons in Hk as [->|Hk]); [..|by apply elem_of_nil in Hk];
      eexists _, _; split; reflexivity.
Defined.

(** X21.  NaN does not take part in the comparison of [min]: when the
    RMSE of the first model of the table is NaN, that model is returned
    as the best one whatever the others are, and a model after the first
    whose RMSE is NaN is never returned.  On an empty table [min] raises
    its error. *)
Theorem best_model_NaN (k : string) (ks : list string)
    (model_results : gmap string models.Report) :
  selection.best_model [] model_results = None
  ∧ (selection.RMSE_of model_results k = NaN →
     selection.best_model (k :: ks) model_results = Some k)
  ∧ (∀ best : string,
       selection.best_model (k :: ks) model_results = Some best →
       selection.RMSE_of model_results best = NaN →
       selection.RMSE_of model_results k = NaN ∧ best = k).
Proof.
  split; [reflexivity|]. split.
  - intros Hk. cbn [selection.best_model]. f_equal. by apply min_by_NaN_first.
  - intros best [= <-] Hbest.
    pose proof (min_by_NaN_later _ k ks Hbest) as Hk.
    split; [exact Hk|]. by apply min_by_NaN_first.
Qed.

Lemma best_model_NaN_witness :
  selection.best_model ["maykut_church"; "jacobs"]%string
    (list_to_map [("maykut_church", {| models.MBE := NaN; models.RMSE := NaN;
                                       models.rMBE := NaN; models.rRMSE := NaN |});
                  ("jacobs", {| models.MBE := #0; models.RMSE := #0.05;
                                models.rMBE := #0; models.rRMSE := #6 |})]%string)
  = Some "maykut_church"%string.
Proof.
  apply (best_model_NaN "maykut_church"%string ["jacobs"]%string).
  reflexivity.
Defined.

(** * Monotonicity of the two emissivity formulas of the single-station script *)

Lemma Rpower_decreasing_neg (x y m : R) :
  (0 < x <= y)%R → (m < 0)%R → (Rpower y m <= Rpower x m)%R.
Proof.
  intros [Hx Hxy] Hm. unfold Rpower.
  destruct (Rle_lt_or_eq_dec _ _ Hxy) as [Hlt| ->]; [|lra].
  left. apply exp_increasing.
  assert (ln x < ln y)%R by (apply ln_increasing; lra). nra.
Qed.

(** X24.  On positive finite irradiances the cloud fraction index does
    not decrease when the diffuse irradiance grows and does not increase
    when the direct irradiance grows: it grows with the diffuse fraction
    DHI/GHI and falls with the clearness index DNI/Clearsky DNI. *)
Theorem calculate_cf_monotone (dhi dhi' ghi dni dni' dni_c : R) :
  (0 < ghi)%R → (0 < dni_c)%R → (0 < dhi <= dhi')%R → (0 < dni <= dni')%R →
  ∃ cf cf_more_diffuse cf_more_direct : R,
    HIdata_error.calculate_cf #dhi #ghi #dni #dni_c = #cf
    ∧ HIdata_error.calculate_cf #dhi' #ghi #dni #dni_c = #cf_more_diffuse
    ∧ HIdata_error.calculate_cf #dhi #ghi #dni' #dni_c = #cf_more_direct
    ∧ (cf <= cf_more_diffuse)%R
    ∧ (cf_more_direct <= cf)%R.
Proof.
  intros Hghi Hdni_c [Hdhi Hdhi'] [Hdni Hdni'].
  assert (Hkd : (0 < dhi / ghi)%R) by (apply Rdiv_lt_0_compat; lra).
  assert (Hkd' : (0 < dhi' / ghi)%R) by (apply Rdiv_lt_0_compat; lra).
  assert (Hkt : (0 < dni / dni_c)%R) by (apply Rdiv_lt_0_compat; lra).
  assert (Hkt' : (0 < dni' / dni_c)%R) by (apply Rdiv_lt_0_compat; lra).
  unfold HIdata_error.calculate_cf.
  rewrite !div_Fin by lra. rewrite !power_Fin by done.
  rewrite !mul_Fin, !add_Fin.
  eexists _, _, _. split; [reflexivity|]. split; [reflexivity|]. split; [reflexivity|].
  assert (Hinv : (0 < / ghi)%R) by (by apply Rinv_0_lt_compat).
  assert (Hinv' : (0 < / dni_c)%R) by (by apply Rinv_0_lt_compat).
  assert (Hle_d : (dhi / ghi <= dhi' / ghi)%R) by (unfold Rdiv; nra).
  assert (Hle_t : (dni / dni_c <= dni' / dni_c)%R) by (unfold Rdiv; nra).
  assert (Hup : (Rpower (dhi / ghi) HIdata_error.a2
                 <= Rpower (dhi' / ghi) HIdata_error.a2)%R).
  { apply Rle_Rpower_l; [unfold HIdata_error.a2; lra|lra]. }
  assert (Hdown : (Rpower (dni' / dni_c) HIdata_error.m2
                   <= Rpower (dni / dni_c) HIdata_error.m2)%R).
  { apply Rpower_decreasing_neg; [lra|unfold HIdata_error.m2; lra]. }
  assert (0 < HIdata_error.a1)%R by (unfold HIdata_error.a1; lra).
  assert (0 < HIdata_error.m1)%R by (unfold HIdata_error.m1; lra).
  split; nra.
Qed.

Lemma calculate_cf_monotone_witness :
  ∃ cf cf_more_diffuse cf_more_direct : R,
    HIdata_error.calculate_cf #100 #500 #400 #500 = #cf
    ∧ HIdata_error.calculate_cf #200 #500 #400 #500 = #cf_more_diffuse
    ∧ HIdata_error.calculate_cf #100 #500 #450 #500 = #cf_more_direct
    ∧ (cf <= cf_more_diffuse)%R
    ∧ (cf_more_direct <= cf)%R.
Proof.
  apply (calculate_cf_monotone 100 200 500 400 450 500); lra.
Defined.

(** X25.  At a temperature other than -243.04 degrees Celsius, the
    clear-sky emissivity does not decrease when the relative humidity
    grows and does not increase when the altitude grows. *)
Theorem clear_sky_emissivity_monotone (T rh rh' a a' : R) :
  (T - 30.11 + 273.15 ≠ 0)%R → (0 <= rh <= rh')%R → (a <= a')%R →
  ∃ e e_more_humid e_higher : R,
    HIdata_error.calculate_clear_sky_emissivity #T #rh #a = #e
    ∧ HIdata_error.calculate_clear_sky_emissivity #T #rh' #a = #e_more_humid
    ∧ HIdata_error.calculate_clear_sky_emissivity #T #rh #a' = #e_higher
    ∧ (e <= e_more_humid)%R
    ∧ (e_higher <= e)%R.
Proof.
  intros HT [Hrh Hrh'] Ha.
  assert (Hvalue : ∀ h z : R, (0 <= h)%R →
    HIdata_error.calculate_clear_sky_emissivity #T #h #z
    = #(0.6 + 1.652 * R_sqrt.sqrt (6.112 * Rtrigo_def.exp (17.625 * T / (T - 30.11 + 273.15))
                                    * h / 100 / 1013.25)
        + 0.15 * (Rtrigo_def.exp (- z / 8500) - 1))).
  { intros h z Hh.
    unfold HIdata_error.calculate_clear_sky_emissivity, HIdata_error.H.
    rewrite sub_Fin, add_Fin, mul_Fin, div_Fin, exp_Fin, !mul_Fin by assumption.
    rewrite neg_Fin, !div_Fin, exp_Fin, sub_Fin by lra.
    rewrite sqrt_Fin.
    - by rewrite !mul_Fin, !add_Fin.
    - set (e_s := Rtrigo_def.exp _). assert (0 < e_s)%R by apply exp_pos.
      apply Rmult_le_pos; [|lra]. apply Rmult_le_pos; [|lra].
      apply Rmult_le_pos; [nra|assumption]. }
  rewrite !Hvalue by lra.
  eexists _, _, _. split; [reflexivity|]. split; [reflexivity|]. split; [reflexivity|].
  set (e_s := Rtrigo_def.exp (17.625 * T / (T - 30.11 + 273.15))).
  assert (He : (0 < e_s)%R) by apply exp_pos.
  split.
  - assert (R_sqrt.sqrt (6.112 * e_s * rh / 100 / 1013.25)
            <= R_sqrt.sqrt (6.112 * e_s * rh' / 100 / 1013.25))%R.
    { apply sqrt_le_1_alt. assert (6.112 * e_s * rh <= 6.112 * e_s * rh')%R by nra. lra. }
    lra.
  - assert (Rtrigo_def.exp (- a' / 8500) <= Rtrigo_def.exp (- a / 8500))%R.
    { destruct (Rle_lt_or_eq_dec _ _ Ha) as [Hlt| ->]; [|lra].
      left. apply exp_increasing. lra. }
    lra.
Qed.

Lemma clear_sky_emissivity_monotone_witness :
  ∃ e e_more_humid e_higher : R,
    HIdata_error.calculate_clear_sky_emissivity #20 #50 #10 = #e
    ∧ HIdata_error.calculate_clear_sky_emissivity #20 #80 #10 = #e_more_humid
    ∧ HIdata_error.calculate_clear_sky_emissivity #20 #50 #3000 = #e_higher
    ∧ (e <= e_more_humid)%R
    ∧ (e_higher <= e)%R.
Proof.
  apply (clear_sky_emissivity_monotone 20 50 80 10 3000); lra.
Defined.
